(** * AutoModelDownloader: a shallow embedding of [nodes/auto/downloader.py]

    The node keeps a list of model records ([self.missing_models]), scans the
    workflow for model references, looks each of them up by file name and
    answers with a triple [(repo_id, filename, local_path)].

    The model records are Python dicts that the code mutates in place and
    shares between lists, so they live in a store addressed by location;
    lists hold locations.  External collaborators ([scan_workflow],
    [search_for_model], the 60 second wait on the worker thread, [json] and
    [hashlib]) are fields of explicit environment records.  [print] and
    [logger] calls have no effect on the state or the result and are left
    out. *)

From stdpp Require Import base option list gmap strings.

Set Warnings "-register-all".

(** ** Python values *)

(** What can sit under the ['repo_id'] key of a record. *)
Inductive PyVal :=
  | PyNone
  | PyStr (s : string).

(** Python truthiness: [None] and the empty string are falsy. *)
Definition truthy (v : PyVal) : bool :=
  match v with
  | PyNone => false
  | PyStr s => negb (bool_decide (s = ""))
  end.

(** JSON-like values of a node descriptor of the workflow. *)
Inductive json :=
  | JNull
  | JBool (b : bool)
  | JNum (z : Z)
  | JStr (s : string)
  | JArr (l : list json)
  | JObj (l : list (string * json)).

(** The exceptions that reach the code modelled here. *)
Inductive Exn :=
  | JSONDecodeError
  | KeyError (key : string)
  | IndexError
  | Exception (msg : string).

(** ** Model records and the store *)

(** A record as [scan_workflow] yields it: ['filename'] and ['local_path']
    are always there; [repo_id = None] says that the dict has no
    ['repo_id'] key. *)
Record Model := mkModel {
  filename : string;
  local_path : string;
  repo_id : option PyVal
}.

(** [m.get('repo_id')] *)
Definition get_repo_id (m : Model) : PyVal := default PyNone (repo_id m).

(** [m.get('repo_id', '')] *)
Definition get_repo_id_or_empty (m : Model) : PyVal :=
  default (PyStr "") (repo_id m).

(** [m['repo_id'] = v] *)
Definition set_repo_id (v : PyVal) (m : Model) : Model :=
  {| filename := filename m; local_path := local_path m; repo_id := Some v |}.

Definition loc := nat.

(** Every location denotes a record; the model puts no freshness
    assumption on the locations the collaborators hand out. *)
Definition Heap := loc → Model.

Definition store (h : Heap) (l : loc) (m : Model) : Heap :=
  λ l', if bool_decide (l' = l) then m else h l'.

(** The instance attributes that [__init__] sets, and [self.log]. *)
Record Self := mkSelf {
  missing_models : list loc;
  initialized : bool;
  last_workflow_hash : option string;
  log : option string
}.

(** [__init__] *)
Definition init : Self :=
  {| missing_models := []; initialized := false;
     last_workflow_hash := None; log := None |}.

Definition set_missing_models (l : list loc) (s : Self) : Self :=
  {| missing_models := l; initialized := initialized s;
     last_workflow_hash := last_workflow_hash s; log := log s |}.

Definition set_last_workflow_hash (x : option string) (s : Self) : Self :=
  {| missing_models := missing_models s; initialized := initialized s;
     last_workflow_hash := x; log := log s |}.

Definition set_log (x : string) (s : Self) : Self :=
  {| missing_models := missing_models s; initialized := initialized s;
     last_workflow_hash := last_workflow_hash s; log := Some x |}.

(** Effects that leave the instance: the cancellation request on the
    future and the message pushed to the frontend. *)
Inductive Event :=
  | FutureCancel
  | SendSync (event : string) (node : string) (models : list Model).

(** ** The workflow and its hash *)

Abbreviation Node := (gmap string json).
Abbreviation Graph := (gmap string Node).

Inductive Prompt :=
  | PromptStr (s : string)
  | PromptDict (g : Graph).

(** [json.loads], [json.dumps(_, sort_keys=True)] and
    [hashlib.md5(_.encode()).hexdigest()]. *)
Record Lib := mkLib {
  json_loads : string → option Graph;
  json_dumps_sorted : Graph → string;
  md5_hexdigest : string → string
}.

Definition resolver_type : string := "Auto Model Downloader".

(** [v.get('class_type') == 'Auto Model Downloader'] *)
Definition is_resolver (v : Node) : bool :=
  match v !! "class_type" with
  | Some (JStr s) => bool_decide (s = resolver_type)
  | _ => false
  end.

Definition filtered_prompt (prompt : Graph) : Graph :=
  filter (λ kv, is_resolver kv.2 = false) prompt.

Definition _get_workflow_hash (L : Lib) (prompt : Prompt) : Exn + string :=
  match prompt with
  | PromptStr s =>
      match json_loads L s with
      | None => inl JSONDecodeError
      | Some g => inr (md5_hexdigest L (json_dumps_sorted L (filtered_prompt g)))
      end
  | PromptDict g =>
      inr (md5_hexdigest L (json_dumps_sorted L (filtered_prompt g)))
  end.

(** ** The worker thread *)

(** How a coroutine handed to the worker ends, seen from the caller that
    waits 60 seconds on the future. *)
Inductive Coro (A : Type) :=
  | Returns (a : A)
  | Raises (e : Exn)
  | Hangs.
Arguments Returns {A} a.
Arguments Raises {A} e.
Arguments Hangs {A}.

(** [_run_async_in_thread]: [run_in_thread] turns an exception of the
    coroutine into [None]; [future.result(timeout=60)] raising is answered
    with [future.cancel()] and [None]. *)
Definition _run_async_in_thread {A} (c : Coro A) : option A * list Event :=
  match c with
  | Returns a => (Some a, [])
  | Raises _ => (None, [])
  | Hangs => (None, [FutureCancel])
  end.

(** ** Removing duplicates *)

Definition identifier (m : Model) : string * string :=
  (filename m, local_path m).

Fixpoint dedupe_loop (h : Heap) (seen : gset (string * string))
    (models : list loc) : list loc :=
  match models with
  | [] => []
  | model :: rest =>
      if bool_decide (identifier (h model) ∈ seen)
      then dedupe_loop h seen rest
      else model :: dedupe_loop h ({[identifier (h model)]} ∪ seen) rest
  end.

(** Lines 96-97 of [process]: [seen = set()] and the comprehension. *)
Definition dedupe (h : Heap) (models : list loc) : list loc :=
  dedupe_loop h ∅ models.

(** ** The lookups *)

(** What [search_for_model] returns: [None] (or an empty dict), or a dict
    that may hold a ['repo_id']. *)
Inductive SearchResult :=
  | NoResult
  | ResultDict (repo : option PyVal).

Inductive LookupOutcome :=
  | LookupReturns (r : SearchResult)
  | LookupRaises (e : Exn).

(** The collaborators of one call of [process]: the scan, the naming
    service, and the clock.  [lookups_before_timeout = Some k] says that the
    60 second wait on the search expires when [k] lookups are done. *)
Record World := mkWorld {
  scan_workflow : Prompt → Coro (option (list loc));
  search_for_model : string → LookupOutcome;
  lookups_before_timeout : option nat
}.

(** [result and result.get('repo_id')], the value when it is truthy. *)
Definition found_repo (result : SearchResult) : option PyVal :=
  match result with
  | ResultDict (Some v) => if truthy v then Some v else None
  | _ => None
  end.

Fixpoint search_loop (W : World) (h : Heap) (models_list results : list loc)
    : Heap * (Exn + list loc) :=
  match models_list with
  | [] => (h, inr results)
  | model :: rest =>
      match search_for_model W (filename (h model)) with
      | LookupRaises e => (h, inl e)
      | LookupReturns result =>
          match found_repo result with
          | Some v =>
              search_loop W (store h model (set_repo_id v (h model))) rest
                (results ++ [model])
          | None => search_loop W h rest results
          end
      end
  end.

Definition search_models_async (W : World) (h : Heap) (models_list : list loc)
    : Heap * (Exn + list loc) :=
  search_loop W h models_list [].

(** The search as the waiting caller sees it: the store as the worker has
    left it so far, and how the coroutine ended. *)
Definition search_coro (W : World) (h : Heap) (models_list : list loc)
    : Heap * Coro (list loc) :=
  match lookups_before_timeout W with
  | None =>
      let '(h', r) := search_models_async W h models_list in
      (h', match r with inl e => Raises e | inr l => Returns l end)
  | Some k =>
      let '(h', r) := search_models_async W h (take k models_list) in
      (h', match r with inl e => Raises e | inr _ => Hangs end)
  end.

(** Line 115 of [process]:
    [self._run_async_in_thread(search_models_async, models) or []]. *)
Definition resolve_all (W : World) (h : Heap) (models_list : list loc)
    : Heap * list loc * list Event :=
  let '(h', c) := search_coro W h models_list in
  let '(r, ev) := _run_async_in_thread c in
  (h', match r with Some ((_ :: _) as l) => l | _ => [] end, ev).

(** ** The cached list *)

(** The inner [for existing_model in self.missing_models] loop: the first
    record with that file name. *)
Fixpoint find_existing (h : Heap) (name : string) (existing : list loc)
    : option loc :=
  match existing with
  | [] => None
  | e :: rest =>
      if bool_decide (name = filename (h e)) then Some e
      else find_existing h name rest
  end.

(** The body of the outer loop of [_update_model_list]: update the record
    found, or ([for ... else]) append the incoming one. *)
Definition merge_model (st : Heap * list loc) (model : loc) : Heap * list loc :=
  let '(h, cache) := st in
  match find_existing h (filename (h model)) cache with
  | Some e => (store h e (set_repo_id (get_repo_id (h model)) (h e)), cache)
  | None => (h, cache ++ [model])
  end.

Record WidgetUpdate := mkWidgetUpdate {
  widget_name : string;
  options : list string;
  value : string
}.

(** The tail of [_update_model_list]: the file names that have a truthy
    ['repo_id'], or the placeholder. *)
Definition widget_update (h : Heap) (cache : list loc) : WidgetUpdate :=
  let filenames :=
    (λ e, filename (h e)) <$>
      filter (λ e, truthy (get_repo_id (h e)) = true) cache in
  let filenames :=
    match filenames with [] => ["No models found"] | _ => filenames end in
  {| widget_name := "select_model"; options := filenames;
     value := match filenames with f :: _ => f | [] => "No models found" end |}.

(** [_update_model_list(models)] where [models] is a list object of its
    own: the store and [self.missing_models] afterwards, and the value
    returned. *)
Definition _update_model_list (h : Heap) (cache : list loc) (models : list loc)
    : Heap * list loc * WidgetUpdate :=
  let '(h', cache') := foldl merge_model (h, cache) models in
  (h', cache', widget_update h' cache').

(** [_update_model_list(self.missing_models)], as [process] calls it: the
    list iterated over is the list appended to, so the iterator sees what
    the body appends.  [fuel] bounds the number of iterations; [None] says
    that it ran out. *)
Fixpoint update_in_place (fuel : nat) (i : nat) (h : Heap) (cache : list loc)
    : option (Heap * list loc) :=
  match cache !! i with
  | None => Some (h, cache)
  | Some model =>
      match fuel with
      | 0 => None
      | S fuel' =>
          let '(h', cache') := merge_model (h, cache) model in
          update_in_place fuel' (S i) h' cache'
      end
  end.

(** ** Selection *)

Definition Triple : Type := PyVal * string * string.

(** Lines 150-165 of [process]. *)
Definition select (h : Heap) (cache : list loc) (select_model : string)
    : Exn + Triple :=
  match find_existing h select_model cache with
  | None => inl (Exception "Model not found")
  | Some selected_model =>
      let repo_id := get_repo_id_or_empty (h selected_model) in
      if truthy repo_id
      then inr (repo_id, filename (h selected_model),
                local_path (h selected_model))
      else inl (Exception "No repository found")
  end.

(** ** [process] *)

Record Outcome := mkOutcome {
  out_result : Exn + Triple;
  out_heap : Heap;
  out_self : Self;
  out_events : list Event
}.

(** [not select_model or select_model == "Scan First"] *)
Definition no_selection (select_model : option string) : bool :=
  match select_model with
  | None => true
  | Some s => bool_decide (s = "") || bool_decide (s = "Scan First")
  end.

Definition workflow_changed (current_hash : string) (self : Self) : bool :=
  negb (bool_decide (Some current_hash = last_workflow_hash self)).

(** [(valid_models[0]['repo_id'], valid_models[0]['filename'],
      valid_models[0]['local_path'])] *)
Definition first_triple (h : Heap) (valid_models : list loc) : Exn + Triple :=
  match valid_models with
  | [] => inl IndexError
  | m :: _ =>
      match repo_id (h m) with
      | None => inl (KeyError "repo_id")
      | Some v => inr (v, filename (h m), local_path (h m))
      end
  end.

Definition no_valid_models : Triple := (PyStr "No valid models found", "", "").

(** Lines 78-143: the scan, the lookups and the refresh of the list.

    Nothing in the [try] block raises on records that have their
    ['filename'] and ['local_path'] ([_run_async_in_thread] returns [None]
    for whatever goes wrong in the worker), so the [except] branch of lines
    117-120 has no counterpart here.  [_update_model_list] is handed
    [self.missing_models] itself; [update_in_place] is that loop, and
    [update_in_place_copy] below shows that it does what the loop over a
    copy does.  After a timeout the store is the one the worker had reached
    when the wait expired. *)
Definition scan_cycle (W : World) (h : Heap) (self : Self)
    (current_hash : string) (prompt : Prompt) (node_id : string) : Outcome :=
  let self := set_log "" self in
  let '(scanned, ev1) := _run_async_in_thread (scan_workflow W prompt) in
  let missing := match scanned with Some (Some l) => l | _ => [] end in
  let unique_models := dedupe h missing in
  let self := set_missing_models unique_models self in
  let '(h, valid_models, ev2) := resolve_all W h (missing_models self) in
  let self := set_missing_models valid_models self in
  match missing_models self with
  | [] => mkOutcome (inr no_valid_models) h self (ev1 ++ ev2)
  | _ :: _ =>
      let '(h, cache, _) :=
        _update_model_list h (missing_models self) (missing_models self) in
      let self := set_missing_models cache self in
      let sent := SendSync "scan_complete" node_id (h <$> missing_models self) in
      let self := set_last_workflow_hash (Some current_hash) self in
      mkOutcome (first_triple h valid_models) h self (ev1 ++ ev2 ++ [sent])
  end.

Definition process (L : Lib) (W : World) (h : Heap) (self : Self)
    (select_model : option string) (prompt : Prompt) (node_id : string)
    : Outcome :=
  match _get_workflow_hash L prompt with
  | inl e => mkOutcome (inl e) h self []
  | inr current_hash =>
      if no_selection select_model || workflow_changed current_hash self
      then scan_cycle W h self current_hash prompt node_id
      else if no_selection select_model
      then mkOutcome (inl (Exception "Select a model")) h self []
      else mkOutcome (select h (missing_models self) (default "" select_model))
             h self []
  end.

(** ** Persistence *)

(** The dict [serialize] builds and [deserialize] reads; [None] is a key
    that is not there. *)
Record Blob := mkBlob {
  blob_missing_models : option (list loc);
  blob_initialized : option bool;
  blob_last_workflow_hash : option (option string)
}.

Definition serialize (self : Self) : Blob :=
  {| blob_missing_models := Some (missing_models self);
     blob_initialized := Some (initialized self);
     blob_last_workflow_hash := Some (last_workflow_hash self) |}.

Definition deserialize (self : Self) (data : Blob) : Self :=
  {| missing_models := default [] (blob_missing_models data);
     initialized := default false (blob_initialized data);
     last_workflow_hash := default None (blob_last_workflow_hash data);
     log := log self |}.


(** ** Vocabulary of the statements *)

(** [e] is the first record of [cache] whose file name is [name]. *)
Definition first_match (h : Heap) (name : string) (cache : list loc) (e : loc)
    : Prop :=
  ∃ i, cache !! i = Some e ∧ filename (h e) = name ∧
    ∀ j y, j < i → cache !! j = Some y → filename (h y) ≠ name.

(** Every record of the list has a truthy ['repo_id']. *)
Definition all_resolved (h : Heap) (l : list loc) : Prop :=
  ∀ e, e ∈ l → truthy (get_repo_id (h e)) = true.

(** The repository the naming service gives for the file name of [m], when
    the lookup returns one. *)
Definition lookup_found (W : World) (h : Heap) (m : loc) : option PyVal :=
  match search_for_model W (filename (h m)) with
  | LookupReturns result => found_repo result
  | LookupRaises _ => None
  end.

Definition lookup_raises (W : World) (h : Heap) (m : loc) : Prop :=
  ∃ e, search_for_model W (filename (h m)) = LookupRaises e.

(** Intermediate values of [scan_cycle]: the list the scan leaves in
    [self.missing_models] (line 93), and [valid_models] (line 115). *)
Definition scanned_models (W : World) (prompt : Prompt) : list loc :=
  match (_run_async_in_thread (scan_workflow W prompt)).1 with
  | Some (Some l) => l
  | _ => []
  end.

Definition valid_models (W : World) (h : Heap) (prompt : Prompt) : list loc :=
  (resolve_all W h (dedupe h (scanned_models W prompt))).1.2.

(** ** Sample data

    Concrete stores, workflows and collaborators, used to run the
    definitions above on explicit inputs. *)

Module Sample.

(** A stand-in for the library: the dump lists the node ids with their
    class types, the digest is the identity, no text parses. *)
Definition class_of (v : Node) : string :=
  match v !! "class_type" with Some (JStr s) => s | _ => "" end.

Definition lib : Lib :=
  {| json_loads := λ _, None;
     json_dumps_sorted := λ g,
       foldr (λ kv acc, kv.1 +:+ ":" +:+ class_of kv.2 +:+ ";" +:+ acc) ""
         (map_to_list g);
     md5_hexdigest := λ s, s |}.

Definition loader_node : Node :=
  {[ "class_type" := JStr "CheckpointLoaderSimple";
     "inputs" := JObj [("ckpt_name", JStr "model.safetensors")] ]}.

Definition resolver_node : Node :=
  {[ "class_type" := JStr "Auto Model Downloader";
     "inputs" := JObj [("select_model", JStr "Scan First")] ]}.

Definition graph : Graph := {[ "4" := loader_node ]}.

Definition graph_with_resolver : Graph := <["9" := resolver_node]> graph.

(** A store: the same file name at two target paths, then three
    distinct references, then a repeat of the first of them. *)
Definition heap : Heap := λ l,
  match l with
  | 0 => mkModel "model.safetensors" "checkpoints" None
  | 1 => mkModel "model.safetensors" "loras" (Some (PyStr "org/repo"))
  | 2 => mkModel "a.safetensors" "checkpoints" None
  | 3 => mkModel "b.safetensors" "vae" None
  | 4 => mkModel "c.safetensors" "loras" None
  | _ => mkModel "a.safetensors" "checkpoints" None
  end.

(** The naming service knows every file but ["b.safetensors"]. *)
Definition naming (name : string) : LookupOutcome :=
  if bool_decide (name = "b.safetensors") then LookupReturns NoResult
  else LookupReturns (ResultDict (Some (PyStr "org/repo"))).

(** The same service, failing on ["b.safetensors"]. *)
Definition naming_raising (name : string) : LookupOutcome :=
  if bool_decide (name = "b.safetensors")
  then LookupRaises (Exception "connection reset")
  else LookupReturns (ResultDict (Some (PyStr "org/repo"))).

(** The scan finds a, b, a again, and c. *)
Definition world : World :=
  {| scan_workflow := λ _, Returns (Some [2; 3; 5; 4]);
     search_for_model := naming;
     lookups_before_timeout := None |}.

Definition world_raising : World :=
  {| scan_workflow := λ _, Returns (Some [2; 3; 5; 4]);
     search_for_model := naming_raising;
     lookups_before_timeout := None |}.

(** The wait expires when one lookup is done. *)
Definition world_slow : World :=
  {| scan_workflow := λ _, Returns (Some [2; 3; 5; 4]);
     search_for_model := naming;
     lookups_before_timeout := Some 1 |}.

(** The scan finds nothing. *)
Definition world_empty : World :=
  {| scan_workflow := λ _, Returns (Some []);
     search_for_model := naming;
     lookups_before_timeout := None |}.

Definition fingerprint : string := "4:CheckpointLoaderSimple;".

(** An instance that has scanned [graph] before and holds one resolved
    record. *)
Definition cached : Self :=
  {| missing_models := [1]; initialized := false;
     last_workflow_hash := Some fingerprint; log := Some "" |}.

(** The scan does not end within the wait. *)
Definition world_scan_hangs : World :=
  {| scan_workflow := λ _, Hangs;
     search_for_model := naming;
     lookups_before_timeout := None |}.

(** The workflow with one more loader node. *)
Definition graph_changed : Graph :=
  <["5" := loader_node]> graph.

(** A dict written before the hash was kept: only the list is there. *)
Definition old_blob : Blob :=
  {| blob_missing_models := Some [1]; blob_initialized := None;
     blob_last_workflow_hash := None |}.

(** The scan without the repeated record. *)
Definition world_unique : World :=
  {| scan_workflow := λ _, Returns (Some [2; 3; 4]);
     search_for_model := naming;
     lookups_before_timeout := None |}.

End Sample.

(** * Properties *)

(** ** The store *)

Lemma store_eq (h : Heap) (l : loc) (m : Model) : store h l m l = m.
Proof. unfold store. by rewrite bool_decide_eq_true_2. Qed.

Lemma store_ne (h : Heap) (l l' : loc) (m : Model) :
  l' ≠ l → store h l m l' = h l'.
Proof. intros Hne. unfold store. by rewrite bool_decide_eq_false_2. Qed.

(** Writing a ['repo_id'] leaves every file name and path as it was. *)
Lemma store_repo_identifier (h : Heap) (l l' : loc) (v : PyVal) :
  identifier (store h l (set_repo_id v (h l)) l') = identifier (h l').
Proof.
  destruct (decide (l' = l)) as [->|Hne].
  - by rewrite store_eq.
  - by rewrite store_ne.
Qed.

Lemma store_repo_filename (h : Heap) (l l' : loc) (v : PyVal) :
  filename (store h l (set_repo_id v (h l)) l') = filename (h l').
Proof. exact (f_equal fst (store_repo_identifier h l l' v)). Qed.

Lemma store_repo_local_path (h : Heap) (l l' : loc) (v : PyVal) :
  local_path (store h l (set_repo_id v (h l)) l') = local_path (h l').
Proof. exact (f_equal snd (store_repo_identifier h l l' v)). Qed.

(** ** Removing duplicates *)

Section dedupe.
Context (h : Heap).

Lemma dedupe_loop_sublist seen models :
  dedupe_loop h seen models `sublist_of` models.
Proof.
  revert seen. induction models as [|x models IH]; intros seen; simpl.
  - constructor.
  - case_bool_decide.
    + apply sublist_cons, IH.
    + apply sublist_skip, IH.
Qed.

Lemma dedupe_loop_elem seen models x :
  x ∈ dedupe_loop h seen models →
  x ∈ models ∧ identifier (h x) ∉ seen.
Proof.
  revert seen. induction models as [|y models IH]; intros seen; simpl.
  - by intros ?%elem_of_nil.
  - case_bool_decide as Hy.
    + intros Hx. apply IH in Hx as [? ?]. split; [by right|done].
    + intros [->|Hx]%elem_of_cons; [split; [by left|done]|].
      apply IH in Hx as [? Hn]. split; [by right|].
      by apply not_elem_of_union in Hn as [_ ?].
Qed.

Lemma dedupe_loop_complete seen models y :
  y ∈ models → identifier (h y) ∉ seen →
  ∃ x, x ∈ dedupe_loop h seen models ∧ identifier (h x) = identifier (h y).
Proof.
  revert seen. induction models as [|z models IH]; intros seen; simpl.
  - by intros ?%elem_of_nil.
  - intros [->|Hy]%elem_of_cons Hn.
    + rewrite bool_decide_eq_false_2 by done. exists z. by split; [left|].
    + case_bool_decide as Hz.
      * by apply IH.
      * destruct (decide (identifier (h y) = identifier (h z))) as [E|E].
        { exists z. by split; [left|]. }
        destruct (IH ({[identifier (h z)]} ∪ seen) Hy) as (x & Hx & Hid).
        { apply not_elem_of_union. split; [|done].
          by intros ?%elem_of_singleton. }
        exists x. by split; [right|].
Qed.

Lemma dedupe_loop_NoDup seen models :
  NoDup ((λ x, identifier (h x)) <$> dedupe_loop h seen models).
Proof.
  revert seen. induction models as [|z models IH]; intros seen; simpl.
  - constructor.
  - case_bool_decide as Hz; [apply IH|].
    rewrite fmap_cons. constructor; [|apply IH].
    intros (x & Hx & Hin)%list_elem_of_fmap.
    apply dedupe_loop_elem in Hin as [_ Hn].
    apply Hn, elem_of_union. left. by apply elem_of_singleton.
Qed.

(** A list without repeated identifiers, none of them seen, is kept whole. *)
Lemma dedupe_loop_fixed seen models :
  NoDup ((λ x, identifier (h x)) <$> models) →
  (∀ x, x ∈ models → identifier (h x) ∉ seen) →
  dedupe_loop h seen models = models.
Proof.
  revert seen. induction models as [|z models IH]; intros seen; simpl; [done|].
  intros [Hz Hnd]%NoDup_cons Hseen.
  rewrite bool_decide_eq_false_2 by (apply Hseen; by left).
  f_equal. apply IH; [done|]. intros x Hx.
  apply not_elem_of_union. split; [|apply Hseen; by right].
  intros E%elem_of_singleton. apply Hz. rewrite <- E.
  apply list_elem_of_fmap. eauto.
Qed.

(** Each survivor stands at the first place of its identifier. *)
Lemma dedupe_loop_first seen models x :
  x ∈ dedupe_loop h seen models →
  ∃ j, models !! j = Some x ∧
    ∀ j' y, j' < j → models !! j' = Some y →
      identifier (h y) ≠ identifier (h x).
Proof.
  revert seen. induction models as [|z models IH]; intros seen; simpl.
  - by intros ?%elem_of_nil.
  - case_bool_decide as Hz.
    + intros Hx. pose proof (dedupe_loop_elem _ _ _ Hx) as [_ Hn].
      destruct (IH _ Hx) as (j & Hj & Hfirst). exists (S j). split; [done|].
      intros [|j'] y Hlt Hy; simpl in Hy.
      * injection Hy as <-. congruence.
      * apply (Hfirst j'); [lia|done].
    + intros [->|Hx]%elem_of_cons.
      * exists 0. split; [done|]. intros; lia.
      * pose proof (dedupe_loop_elem _ _ _ Hx) as [_ Hn].
        destruct (IH _ Hx) as (j & Hj & Hfirst). exists (S j). split; [done|].
        intros [|j'] y Hlt Hy; simpl in Hy.
        -- injection Hy as <-. intros E. apply Hn, elem_of_union. left.
           by apply elem_of_singleton.
        -- apply (Hfirst j'); [lia|done].
Qed.
End dedupe.

(** C8: removing duplicates twice is removing them once; the result is a
    subsequence of the input (first-seen order), each survivor is the first
    record of the input with its (filename, local_path) pair, every pair of
    the input survives, and no pair survives twice.  The operation is a
    function of the store and the list: it returns a list and writes to
    neither. *)
Theorem dedupe_idempotent_stable (h : Heap) (models : list loc) :
  dedupe h (dedupe h models) = dedupe h models
  ∧ dedupe h models `sublist_of` models
  ∧ (∀ x, x ∈ dedupe h models →
       ∃ j, models !! j = Some x ∧
         ∀ j' y, j' < j → models !! j' = Some y →
           identifier (h y) ≠ identifier (h x))
  ∧ (∀ y, y ∈ models →
       ∃ x, x ∈ dedupe h models ∧ identifier (h x) = identifier (h y))
  ∧ NoDup ((λ x, identifier (h x)) <$> dedupe h models).
Proof.
  unfold dedupe. split_and!.
  - apply dedupe_loop_fixed; [apply dedupe_loop_NoDup|].
    intros x _. apply not_elem_of_empty.
  - apply dedupe_loop_sublist.
  - apply dedupe_loop_first.
  - intros y Hy. apply dedupe_loop_complete; [done|apply not_elem_of_empty].
  - apply dedupe_loop_NoDup.
Qed.

(** ** Persistence *)

(** C9: reading back what [serialize] wrote restores the list, the flag
    and the hash, on any instance; on the instance that was serialized it
    changes nothing. *)
Theorem deserialize_serialize (self other : Self) :
  let restored := deserialize other (serialize self) in
  missing_models restored = missing_models self
  ∧ initialized restored = initialized self
  ∧ last_workflow_hash restored = last_workflow_hash self
  ∧ deserialize self (serialize self) = self.
Proof. by destruct self. Qed.

(** ** The workflow hash *)

Lemma filtered_prompt_lookup (G : Graph) (k : string) (v : Node) :
  filtered_prompt G !! k = Some v ↔ G !! k = Some v ∧ is_resolver v = false.
Proof. unfold filtered_prompt. by rewrite map_lookup_filter_Some. Qed.

(** Two workflows with the same nodes of other types have the same
    filtered dict. *)
Lemma filtered_prompt_ext (G G' : Graph) :
  (∀ k v, is_resolver v = false → G !! k = Some v ↔ G' !! k = Some v) →
  filtered_prompt G = filtered_prompt G'.
Proof.
  intros Hagree. apply map_eq. intros k. apply option_eq. intros v.
  rewrite !filtered_prompt_lookup. split; intros [? ?]; split; try done.
  - by apply Hagree.
  - by apply Hagree.
Qed.

Lemma filtered_prompt_insert (G : Graph) (k : string) (v : Node) :
  is_resolver v = true → G !! k = None →
  filtered_prompt (<[k:=v]> G) = filtered_prompt G.
Proof.
  intros Hv Hk. unfold filtered_prompt.
  rewrite map_filter_insert_False by (simpl; congruence).
  by rewrite delete_id.
Qed.

Lemma filtered_prompt_delete (G : Graph) (k : string) (v : Node) :
  is_resolver v = true → G !! k = Some v →
  filtered_prompt (delete k G) = filtered_prompt G.
Proof.
  intros Hv Hk. rewrite <- (insert_id G k v) at 2 by done.
  unfold filtered_prompt.
  by rewrite map_filter_insert_False by (simpl; congruence).
Qed.

(** A workflow handed over as text is hashed as the dict it parses to. *)
Lemma workflow_hash_of_text (L : Lib) (s : string) (G : Graph) :
  json_loads L s = Some G →
  _get_workflow_hash L (PromptStr s) = _get_workflow_hash L (PromptDict G).
Proof. intros Hs. simpl. by rewrite Hs. Qed.

(** C7: a node of class "Auto Model Downloader" that is added to the
    workflow, or taken out of it, leaves the hash as it was; workflows that
    agree on the nodes of every other class have the same hash. *)
Theorem workflow_hash_excludes_resolver
    (L : Lib) (G : Graph) (k : string) (v : Node) :
  is_resolver v = true →
  (G !! k = None →
     _get_workflow_hash L (PromptDict (<[k:=v]> G))
     = _get_workflow_hash L (PromptDict G))
  ∧ (G !! k = Some v →
     _get_workflow_hash L (PromptDict (delete k G))
     = _get_workflow_hash L (PromptDict G))
  ∧ (∀ G' : Graph,
       (∀ j n, is_resolver n = false → G !! j = Some n ↔ G' !! j = Some n) →
       _get_workflow_hash L (PromptDict G')
       = _get_workflow_hash L (PromptDict G)).
Proof.
  intros Hv. simpl. split_and!.
  - intros Hk. by rewrite filtered_prompt_insert.
  - intros Hk. by rewrite (filtered_prompt_delete G k v).
  - intros G' Hagree. by rewrite (filtered_prompt_ext G G').
Qed.

Lemma workflow_hash_excludes_resolver_run :
  _get_workflow_hash Sample.lib (PromptDict Sample.graph_with_resolver)
    = inr "4:CheckpointLoaderSimple;"
  ∧ _get_workflow_hash Sample.lib (PromptDict Sample.graph_with_resolver)
    = _get_workflow_hash Sample.lib (PromptDict Sample.graph).
Proof.
  split; [by vm_compute|].
  destruct (workflow_hash_excludes_resolver
              Sample.lib Sample.graph "9" Sample.resolver_node)
    as (Hadd & _ & _); [by vm_compute|].
  apply Hadd. by vm_compute.
Defined.

(** ** Finding a record by file name *)

Lemma find_existing_Some (h : Heap) (name : string) (cache : list loc) (e : loc) :
  find_existing h name cache = Some e ↔ first_match h name cache e.
Proof.
  unfold first_match. induction cache as [|c cache IH]; simpl.
  - split; [done|]. by intros (i & Hi & _).
  - case_bool_decide as Hc.
    + split.
      * intros [= ->]. exists 0. split_and!; [done..|]. intros; lia.
      * intros ([|i] & Hi & He & Hfirst); simpl in Hi; [congruence|].
        destruct (Hfirst 0 c); [lia|done..].
    + rewrite IH. split.
      * intros (i & Hi & He & Hfirst). exists (S i). split_and!; [done..|].
        intros [|j] y Hlt Hy; simpl in Hy; [congruence|].
        apply (Hfirst j); [lia|done].
      * intros ([|i] & Hi & He & Hfirst); simpl in Hi; [congruence|].
        exists i. split_and!; [done..|]. intros j y Hlt Hy.
        apply (Hfirst (S j)); [lia|done].
Qed.

Lemma find_existing_None (h : Heap) (name : string) (cache : list loc) :
  find_existing h name cache = None ↔
  ∀ e, e ∈ cache → filename (h e) ≠ name.
Proof.
  induction cache as [|c cache IH]; simpl.
  - split; [|done]. by intros _ e ?%elem_of_nil.
  - case_bool_decide as Hc.
    + split; [done|]. intros Hall. destruct (Hall c); [by left|done].
    + rewrite IH. split.
      * intros Hall e [->|?]%elem_of_cons; [congruence|by apply Hall].
      * intros Hall e ?. apply Hall. by right.
Qed.

Lemma find_existing_elem (h : Heap) (name : string) (cache : list loc) (e : loc) :
  find_existing h name cache = Some e → e ∈ cache ∧ filename (h e) = name.
Proof.
  intros (i & Hi & He & _)%find_existing_Some. split; [|done].
  by eapply list_elem_of_lookup_2.
Qed.

Lemma find_existing_ext (h h' : Heap) (name : string) (cache : list loc) :
  (∀ l, filename (h' l) = filename (h l)) →
  find_existing h' name cache = find_existing h name cache.
Proof.
  intros Hfn. induction cache as [|c cache IH]; simpl; [done|].
  by rewrite Hfn, IH.
Qed.

(** A match in a list is still the match when records are appended. *)
Lemma find_existing_app (h : Heap) (name : string) (cache more : list loc) :
  find_existing h name (cache ++ more) =
  match find_existing h name cache with
  | Some e => Some e
  | None => find_existing h name more
  end.
Proof.
  induction cache as [|c cache IH]; simpl; [done|]. by case_bool_decide.
Qed.

(** ** The lookups *)

Lemma found_repo_truthy (result : SearchResult) (v : PyVal) :
  found_repo result = Some v → truthy v = true.
Proof.
  destruct result as [|[w|]]; simpl; try done.
  destruct (truthy w) eqn:Hw; [|done]. by intros [= <-].
Qed.

Lemma lookup_found_ext (W : World) (h h' : Heap) (m : loc) :
  (∀ l, identifier (h' l) = identifier (h l)) →
  lookup_found W h' m = lookup_found W h m.
Proof.
  intros Hid. unfold lookup_found.
  by rewrite (f_equal fst (Hid m) : filename (h' m) = filename (h m)).
Qed.

(** What a run of the loop leaves behind it. *)
Record search_post (W : World) (h : Heap) (models_list results : list loc)
    (h' : Heap) (r : Exn + list loc) : Prop := {
  search_identifier : ∀ l, identifier (h' l) = identifier (h l);
  search_keeps_resolved :
    ∀ l, truthy (get_repo_id (h l)) = true →
         truthy (get_repo_id (h' l)) = true;
  search_raised :
    ∀ e, r = inl e →
      ∃ m, m ∈ models_list ∧ search_for_model W (filename (h m)) = LookupRaises e;
  search_returned :
    ∀ out, r = inr out →
      (∀ m, m ∈ models_list → ¬ lookup_raises W h m)
      ∧ out = results ++ filter (λ m, is_Some (lookup_found W h m)) models_list
      ∧ all_resolved h' (filter (λ m, is_Some (lookup_found W h m)) models_list)
}.

Lemma search_loop_post (W : World) (h : Heap) (models_list results : list loc) :
  search_post W h models_list results
    (search_loop W h models_list results).1
    (search_loop W h models_list results).2.
Proof.
  revert h results.
  induction models_list as [|model rest IH]; intros h results; simpl.
  - split; try done. intros out [= <-]. split_and!.
    + by intros m ?%elem_of_nil.
    + by rewrite app_nil_r.
    + by intros m ?%elem_of_nil.
  - destruct (search_for_model W (filename (h model))) as [result|e] eqn:Hlk;
      simpl.
    2:{ split; try done. intros e' [= <-]. exists model. by split; [left|]. }
    destruct (found_repo result) as [v|] eqn:Hv.
    + set (h1 := store h model (set_repo_id v (h model))).
      assert (Hid1 : ∀ l, identifier (h1 l) = identifier (h l))
        by (intros l; apply store_repo_identifier).
      assert (Hfilter :
        filter (λ m, is_Some (lookup_found W h1 m)) rest
        = filter (λ m, is_Some (lookup_found W h m)) rest).
      { apply list_filter_iff. intros m. by rewrite (lookup_found_ext W h h1 m). }
      destruct (IH h1 (results ++ [model])) as [Hid Hkeep Hraise Hret].
      split.
      * intros l. by rewrite Hid.
      * intros l Hl. apply Hkeep. unfold h1.
        destruct (decide (l = model)) as [->|Hne].
        -- rewrite store_eq. simpl. by eapply found_repo_truthy.
        -- by rewrite store_ne.
      * intros e He. destruct (Hraise e He) as (m & Hm & Hlkm).
        exists m. split; [by right|].
        by rewrite <- (f_equal fst (Hid1 m) : filename (h1 m) = filename (h m)).
      * intros out Hout. destruct (Hret out Hout) as (Hnone & -> & Hall).
        split_and!.
        -- intros m [->|Hm]%elem_of_cons [e He]; [congruence|].
           apply (Hnone m Hm). exists e.
           by rewrite (f_equal fst (Hid1 m) : filename (h1 m) = filename (h m)).
        -- rewrite filter_cons_True by (unfold lookup_found; by rewrite Hlk, Hv).
           by rewrite Hfilter, <- app_assoc.
        -- rewrite filter_cons_True by (unfold lookup_found; by rewrite Hlk, Hv).
           intros m [->|Hm]%elem_of_cons.
           ++ apply Hkeep. unfold h1. rewrite store_eq. simpl.
              by eapply found_repo_truthy.
           ++ apply Hall. by rewrite Hfilter.
    + destruct (IH h results) as [Hid Hkeep Hraise Hret]. split; try done.
      * intros e He. destruct (Hraise e He) as (m & Hm & Hlkm).
        exists m. by split; [right|].
      * intros out Hout. destruct (Hret out Hout) as (Hnone & -> & Hall).
        assert (Hno : ¬ is_Some (lookup_found W h model)).
        { unfold lookup_found. rewrite Hlk, Hv. by intros [? ?]. }
        split_and!.
        -- intros m [->|Hm]%elem_of_cons [e He]; [congruence|].
           apply (Hnone m Hm). by exists e.
        -- by rewrite filter_cons_False.
        -- by rewrite filter_cons_False.
Qed.

(** A lookup that raises ends the loop with that exception. *)
Lemma search_loop_raises (W : World) (h : Heap) (models_list results : list loc)
    (m : loc) :
  m ∈ models_list → lookup_raises W h m →
  ∃ e, (search_loop W h models_list results).2 = inl e.
Proof.
  intros Hm Hr. pose proof (search_loop_post W h models_list results) as Hp.
  destruct (search_loop W h models_list results).2 as [e|out] eqn:E; [eauto|].
  destruct (search_returned _ _ _ _ _ _ Hp out eq_refl) as (Hnone & _).
  by destruct (Hnone m Hm).
Qed.

(** When no lookup raises, the loop returns the resolved records in the
    order of the input. *)
Lemma search_loop_returns (W : World) (h : Heap) (models_list results : list loc) :
  (∀ m, m ∈ models_list → ¬ lookup_raises W h m) →
  (search_loop W h models_list results).2
  = inr (results ++ filter (λ m, is_Some (lookup_found W h m)) models_list).
Proof.
  intros Hnone. pose proof (search_loop_post W h models_list results) as Hp.
  destruct (search_loop W h models_list results).2 as [e|out] eqn:E.
  - destruct (search_raised _ _ _ _ _ _ Hp e eq_refl) as (m & Hm & Hlk).
    destruct (Hnone m Hm). by exists e.
  - by destruct (search_returned _ _ _ _ _ _ Hp out eq_refl) as (_ & -> & _).
Qed.

(** ** Merging into the cached list *)

#[local] Arguments merge_model : simpl never.

Lemma merge_model_found (h : Heap) (cache : list loc) (x e : loc) :
  find_existing h (filename (h x)) cache = Some e →
  merge_model (h, cache) x
  = (store h e (set_repo_id (get_repo_id (h x)) (h e)), cache).
Proof. intros He. unfold merge_model. by rewrite He. Qed.

Lemma merge_model_fresh (h : Heap) (cache : list loc) (x : loc) :
  find_existing h (filename (h x)) cache = None →
  merge_model (h, cache) x = (h, cache ++ [x]).
Proof. intros He. unfold merge_model. by rewrite He. Qed.

Lemma merge_model_identifier (h : Heap) (cache : list loc) (x l : loc) :
  identifier ((merge_model (h, cache) x).1 l) = identifier (h l).
Proof.
  unfold merge_model.
  destruct (find_existing h (filename (h x)) cache); simpl; [|done].
  apply store_repo_identifier.
Qed.

Lemma merge_model_filename (h : Heap) (cache : list loc) (x l : loc) :
  filename ((merge_model (h, cache) x).1 l) = filename (h l).
Proof. exact (f_equal fst (merge_model_identifier h cache x l)). Qed.

(** One step reads the ['repo_id'] of the incoming record and writes it to
    a record of the same file name, or writes nothing. *)
Lemma merge_model_repo (h : Heap) (cache : list loc) (x l : loc) :
  repo_id ((merge_model (h, cache) x).1 l) = repo_id (h l)
  ∨ (filename (h x) = filename (h l)
     ∧ repo_id ((merge_model (h, cache) x).1 l) = Some (get_repo_id (h x))).
Proof.
  unfold merge_model.
  destruct (find_existing h (filename (h x)) cache) as [e|] eqn:He; simpl;
    [|by left].
  destruct (decide (l = e)) as [->|Hne].
  - right. rewrite store_eq. split; [|done].
    by apply find_existing_elem in He as [_ ->].
  - left. by rewrite store_ne.
Qed.

Lemma merge_model_get_repo (h : Heap) (cache : list loc) (x l : loc) :
  get_repo_id ((merge_model (h, cache) x).1 l) = get_repo_id (h l)
  ∨ (filename (h x) = filename (h l)
     ∧ get_repo_id ((merge_model (h, cache) x).1 l) = get_repo_id (h x)).
Proof.
  unfold get_repo_id at 1 3.
  destruct (merge_model_repo h cache x l) as [->|[? ->]]; [by left|by right].
Qed.

(** One step leaves the list as it is or appends the incoming record. *)
Lemma merge_model_cache (h : Heap) (cache : list loc) (x : loc) :
  (is_Some (find_existing h (filename (h x)) cache)
     ∧ (merge_model (h, cache) x).2 = cache)
  ∨ (find_existing h (filename (h x)) cache = None
     ∧ (merge_model (h, cache) x).2 = cache ++ [x]).
Proof.
  unfold merge_model.
  destruct (find_existing h (filename (h x)) cache) as [e|] eqn:He; simpl;
    [left|right]; eauto.
Qed.

(** What the loop of [_update_model_list] leaves behind it. *)
Record merge_post (h : Heap) (cache models : list loc)
    (h' : Heap) (cache' : list loc) : Prop := {
  merge_identifier : ∀ l, identifier (h' l) = identifier (h l);
  merge_appended :
    ∃ more, cache' = cache ++ more
      ∧ (∀ x, x ∈ more →
           x ∈ models ∧ find_existing h (filename (h x)) cache = None)
      ∧ NoDup ((λ x, filename (h x)) <$> more);
  merge_present :
    ∀ x, x ∈ models → is_Some (find_existing h (filename (h x)) cache');
  merge_repo :
    ∀ l, repo_id (h' l) = repo_id (h l)
         ∨ ∃ x, x ∈ models ∧ filename (h x) = filename (h l)
                ∧ repo_id (h' l) = Some (get_repo_id (h x));
  merge_updated :
    ∀ x e, x ∈ models → find_existing h (filename (h x)) cache = Some e →
      ∃ x', x' ∈ models ∧ filename (h x') = filename (h x)
            ∧ repo_id (h' e) = Some (get_repo_id (h x'))
}.

Lemma merge_loop_post (h : Heap) (cache models : list loc) :
  merge_post h cache models
    (foldl merge_model (h, cache) models).1
    (foldl merge_model (h, cache) models).2.
Proof.
  revert h cache. induction models as [|x0 rest IH]; intros h cache; simpl.
  - split.
    + done.
    + exists []. rewrite app_nil_r. split_and!; [done| |constructor].
      by intros x ?%elem_of_nil.
    + by intros x ?%elem_of_nil.
    + by left.
    + by intros x e ?%elem_of_nil.
  - pose proof (merge_model_identifier h cache x0) as Hid1.
    pose proof (merge_model_repo h cache x0) as Hrepo1.
    pose proof (merge_model_get_repo h cache x0) as Hget1.
    pose proof (merge_model_cache h cache x0) as Hcache1.
    destruct (merge_model (h, cache) x0) as [h1 cache1] eqn:Hstep.
    simpl in Hid1, Hrepo1, Hget1, Hcache1.
    assert (Hfn1 : ∀ l, filename (h1 l) = filename (h l))
      by (intros l; exact (f_equal fst (Hid1 l))).
    destruct (IH h1 cache1) as [Hid [more (Hmore & Hnew & Hnd)] Hpres Hrepo Hupd].
    (* a value read in [h1] is a value an incoming record had in [h] *)
    assert (Hback : ∀ x, x ∈ rest → ∀ l, filename (h1 x) = filename (h1 l) →
      ∃ x', x' ∈ x0 :: rest ∧ filename (h x') = filename (h l)
            ∧ get_repo_id (h1 x) = get_repo_id (h x')).
    { intros x Hx l Hfn. rewrite !Hfn1 in Hfn.
      destruct (Hget1 x) as [Hg|[Hf Hg]].
      - exists x. split_and!; [by right|done..].
      - exists x0. split_and!; [by left|congruence|done]. }
    split.
    + intros l. by rewrite Hid.
    + destruct Hcache1 as [[_ ->]|[Hnone ->]].
      * exists more. split_and!; [done| |].
        -- intros x Hx. destruct (Hnew x Hx) as [? Hf]. split; [by right|].
           by rewrite (find_existing_ext h h1), Hfn1 in Hf.
        -- erewrite list_fmap_ext; [exact Hnd|]. intros _ x _. simpl. by rewrite Hfn1.
      * exists (x0 :: more). rewrite Hmore, <- app_assoc. split_and!; [done| |].
        -- intros x [->|Hx]%elem_of_cons; [by split; [left|]|].
           destruct (Hnew x Hx) as [? Hf]. split; [by right|].
           rewrite (find_existing_ext h h1), Hfn1, find_existing_app in Hf
             by done.
           by destruct (find_existing h (filename (h x)) cache).
        -- rewrite fmap_cons. constructor.
           ++ intros (x & Hfx & Hx)%list_elem_of_fmap.
              destruct (Hnew x Hx) as [_ Hf].
              rewrite (find_existing_ext h h1), Hfn1, find_existing_app in Hf
                by done.
              destruct (find_existing h (filename (h x)) cache); [done|].
              simpl in Hf. rewrite bool_decide_eq_true_2 in Hf by done. done.
           ++ erewrite list_fmap_ext; [exact Hnd|].
              intros _ x _. simpl. by rewrite Hfn1.
    + intros x [->|Hx]%elem_of_cons.
      * rewrite Hmore, find_existing_app.
        destruct Hcache1 as [[[e He] ->]|[Hnone ->]].
        -- by rewrite He.
        -- rewrite find_existing_app, Hnone. simpl.
           by rewrite bool_decide_eq_true_2.
      * specialize (Hpres x Hx).
        by rewrite (find_existing_ext h h1), Hfn1 in Hpres.
    + intros l. destruct (Hrepo l) as [E|(x & Hx & Hf & E)].
      * rewrite E. destruct (Hrepo1 l) as [?|[? ?]]; [by left|].
        right. exists x0. split_and!; [by left|done..].
      * right. destruct (Hback x Hx l Hf) as (x' & ? & ? & Hg).
        exists x'. split_and!; [done..|]. by rewrite E, Hg.
    + intros x e Hx He.
      assert (He1 : find_existing h1 (filename (h1 x)) cache1 = Some e).
      { rewrite (find_existing_ext h h1), Hfn1 by done.
        destruct Hcache1 as [[_ ->]|[_ ->]]; [done|].
        by rewrite find_existing_app, He. }
      assert (Hwritten : x ∈ rest ∨
        ∃ x', x' ∈ x0 :: rest ∧ filename (h x') = filename (h x)
              ∧ repo_id (h1 e) = Some (get_repo_id (h x'))).
      { apply elem_of_cons in Hx as [->|Hx]; [right|by left].
        exists x0. split_and!; [by left|done|].
        apply (f_equal fst) in Hstep. simpl in Hstep. subst h1.
        rewrite (merge_model_found h cache x0 e He). simpl.
        by rewrite store_eq. }
      destruct Hwritten as [Hrest|(x' & Hx' & Hf' & Hw)].
      * destruct (Hupd x e Hrest He1) as (x' & Hx' & Hf & E).
        rewrite (Hfn1 x) in Hf. rewrite <- (Hfn1 x) in Hf.
        destruct (Hback x' Hx' x Hf) as (x'' & ? & ? & Hg).
        exists x''. split_and!; [done..|]. by rewrite E, Hg.
      * destruct (Hrepo e) as [E|(x1 & Hx1 & Hf1 & E)].
        -- exists x'. split_and!; [done..|]. by rewrite E.
        -- destruct (Hback x1 Hx1 e Hf1) as (x'' & ? & Hf'' & Hg).
           exists x''. split_and!; [done| |by rewrite E, Hg].
           apply find_existing_elem in He as [_ He]. congruence.
Qed.

(** The loop over [self.missing_models] itself never appends, so it visits
    the records the list had at the start: with fuel for that many
    iterations it ends, and it does what the loop over a copy does. *)
Lemma update_in_place_drop (fuel i : nat) (h : Heap) (cache : list loc) :
  length cache ≤ fuel + i →
  update_in_place fuel i h cache
  = Some (foldl merge_model (h, cache) (drop i cache)).
Proof.
  revert i h. induction fuel as [|fuel IH]; intros i h Hlen.
  - simpl. rewrite lookup_ge_None_2, drop_ge by lia. done.
  - simpl. destruct (cache !! i) as [model|] eqn:Hi.
    + rewrite (drop_S _ _ _ Hi). simpl.
      destruct (find_existing h (filename (h model)) cache) as [e|] eqn:He.
      * rewrite (merge_model_found _ _ _ _ He). apply IH. lia.
      * apply list_elem_of_lookup_2 in Hi.
        by destruct (proj1 (find_existing_None _ _ _) He model Hi).
    + by rewrite drop_ge by (by apply lookup_ge_None).
Qed.

Lemma update_in_place_copy (h : Heap) (cache : list loc) :
  update_in_place (length cache) 0 h cache
  = Some (foldl merge_model (h, cache) cache).
Proof. rewrite update_in_place_drop by lia. by rewrite drop_0. Qed.

(** Merging records that are all in the list already appends nothing. *)
Lemma merge_loop_within (h : Heap) (cache models : list loc) :
  models ⊆ cache → (foldl merge_model (h, cache) models).2 = cache.
Proof.
  intros Hsub.
  destruct (merge_loop_post h cache models) as [_ [more (-> & Hnew & _)] _ _ _].
  destruct more as [|x more]; [by rewrite app_nil_r|].
  destruct (Hnew x) as [Hx Hnone]; [by left|].
  by destruct (proj1 (find_existing_None _ _ _) Hnone x (Hsub x Hx)).
Qed.

Lemma merge_loop_all_resolved (h : Heap) (cache models : list loc) :
  all_resolved h cache → all_resolved h models →
  all_resolved (foldl merge_model (h, cache) models).1
               (foldl merge_model (h, cache) models).2.
Proof.
  intros Hcache Hmodels.
  destruct (merge_loop_post h cache models)
    as [_ [more (-> & Hnew & _)] _ Hrepo _].
  intros l Hl. unfold get_repo_id.
  destruct (Hrepo l) as [->|(x & Hx & _ & ->)].
  - apply elem_of_app in Hl as [Hl|Hl]; [by apply Hcache|].
    apply Hmodels. by apply Hnew.
  - by apply Hmodels.
Qed.

(** C2 (as the code has it): the merge goes by file name alone.  After
    [_update_model_list(models)] every incoming file name is a file name of
    the cached list; the list before is a prefix of the list after, and no
    record has changed its file name or its path; an incoming record whose
    file name is that of a cached record is not appended (no appended
    record bears a file name the list had, or one another appended record
    bears), and the first cached record of that file name has its
    ['repo_id'] overwritten with the one of an incoming record of that
    name. *)
Theorem update_model_list_by_filename (h : Heap) (cache models : list loc) :
  let '(h', cache', _) := _update_model_list h cache models in
  (∀ x, x ∈ models → ∃ e, e ∈ cache' ∧ filename (h' e) = filename (h' x))
  ∧ cache `prefix_of` cache'
  ∧ (∀ l, filename (h' l) = filename (h l)
          ∧ local_path (h' l) = local_path (h l))
  ∧ (∀ a, a ∈ drop (length cache) cache' →
       a ∈ models ∧ ∀ e, e ∈ cache → filename (h e) ≠ filename (h a))
  ∧ NoDup ((λ a, filename (h' a)) <$> drop (length cache) cache')
  ∧ (∀ x e, x ∈ models → first_match h (filename (h x)) cache e →
       ∃ x', x' ∈ models ∧ filename (h x') = filename (h x)
             ∧ repo_id (h' e) = Some (get_repo_id (h x'))).
Proof.
  unfold _update_model_list.
  pose proof (merge_loop_post h cache models) as Hp.
  destruct (foldl merge_model (h, cache) models) as [h' cache']. simpl in Hp.
  destruct Hp as [Hid [more (-> & Hnew & Hnd)] Hpres Hrepo Hupd].
  assert (Hfn : ∀ l, filename (h' l) = filename (h l))
    by (intros l; exact (f_equal fst (Hid l))).
  rewrite drop_app_length. split_and!.
  - intros x Hx. destruct (Hpres x Hx) as [e He].
    apply find_existing_elem in He as [? ?]. exists e. by rewrite !Hfn.
  - by exists more.
  - intros l. split; [done|]. exact (f_equal snd (Hid l)).
  - intros a Ha. destruct (Hnew a Ha) as [? Hnone]. split; [done|].
    by apply find_existing_None.
  - erewrite list_fmap_ext; [exact Hnd|]. intros _ a _. simpl. by rewrite Hfn.
  - intros x e Hx He. apply Hupd; [done|]. by apply find_existing_Some.
Qed.

(** Against C2 as stated: an incoming record with the file name of a cached
    record and another path is not appended; its identifier is not in the
    list afterwards. *)
Lemma update_model_list_loses_identifier :
  let '(h', cache', _) := _update_model_list Sample.heap [0] [1] in
  cache' = [0]
  ∧ h' 0 = mkModel "model.safetensors" "checkpoints" (Some (PyStr "org/repo"))
  ∧ ¬ ∃ e, e ∈ cache' ∧ identifier (h' e) = identifier (Sample.heap 1).
Proof.
  vm_compute. split_and!; [done..|].
  intros (e & He & Hid). apply list_elem_of_singleton in He as ->.
  vm_compute in Hid. congruence.
Qed.

(** ** The orchestration step *)

(** What [resolve_all] leaves behind it, however the worker ends. *)
Lemma resolve_all_post (W : World) (h : Heap) (models_list : list loc) :
  (∀ l, identifier ((resolve_all W h models_list).1.1 l) = identifier (h l))
  ∧ all_resolved (resolve_all W h models_list).1.1
                 (resolve_all W h models_list).1.2
  ∧ (∀ m, m ∈ (resolve_all W h models_list).1.2 →
       m ∈ models_list ∧ is_Some (lookup_found W h m)).
Proof.
  unfold resolve_all, search_coro, search_models_async.
  destruct (lookups_before_timeout W) as [k|].
  - pose proof (search_loop_post W h (take k models_list) []) as [Hid _ _ _].
    destruct (search_loop W h (take k models_list) []) as [h' [e|out]];
      simpl in *; (split_and!; [done|by intros m ?%elem_of_nil..]).
  - pose proof (search_loop_post W h models_list []) as [Hid _ _ Hret].
    destruct (search_loop W h models_list []) as [h' [e|out]]; simpl in *.
    { split_and!; [done|by intros m ?%elem_of_nil..]. }
    destruct (Hret out eq_refl) as (_ & Hout & Hall). simpl in Hout.
    destruct out as [|m0 out]; simpl.
    { split_and!; [done|by intros m ?%elem_of_nil..]. }
    rewrite Hout. split_and!; [done..|].
    intros m Hm. by apply list_elem_of_filter in Hm as [? ?].
Qed.

(** The wait on the search expired. *)
Lemma resolve_all_hangs (W : World) (h : Heap) (models_list : list loc) :
  (search_coro W h models_list).2 = Hangs →
  (resolve_all W h models_list).1.2 = []
  ∧ (resolve_all W h models_list).2 = [FutureCancel].
Proof.
  unfold resolve_all. destruct (search_coro W h models_list) as [h' c].
  simpl. by intros ->.
Qed.

(** A lookup raised before the wait expired. *)
Lemma resolve_all_raises (W : World) (h : Heap) (models_list : list loc) (e : Exn) :
  (search_coro W h models_list).2 = Raises e →
  (resolve_all W h models_list).1.2 = []
  ∧ (resolve_all W h models_list).2 = [].
Proof.
  unfold resolve_all. destruct (search_coro W h models_list) as [h' c].
  simpl. by intros ->.
Qed.

(** C1 (as the code has it): with the worker given the time it needs, a
    lookup that raises leaves the whole batch without resolutions (the
    exception stays in the worker: the step returns the empty list); when
    no lookup raises, a lookup that finds nothing is passed over and the
    others go on: the step returns, in the order of the input, the records
    whose lookup gave a repository, each with its ['repo_id'] set. *)
Theorem lookup_failure_empties_batch (W : World) (h : Heap) (models_list : list loc) :
  lookups_before_timeout W = None →
  ((∃ m, m ∈ models_list ∧ lookup_raises W h m) →
     (resolve_all W h models_list).1.2 = [])
  ∧ ((∀ m, m ∈ models_list → ¬ lookup_raises W h m) →
     (resolve_all W h models_list).1.2
     = filter (λ m, is_Some (lookup_found W h m)) models_list
     ∧ all_resolved (resolve_all W h models_list).1.1
                    (resolve_all W h models_list).1.2).
Proof.
  intros Htime. split.
  - intros (m & Hm & Hr).
    destruct (search_loop_raises W h models_list [] m Hm Hr) as [e He].
    apply (resolve_all_raises W h models_list e).
    unfold search_coro, search_models_async. rewrite Htime.
    destruct (search_loop W h models_list []) as [h' r]. simpl in *.
    by rewrite He.
  - intros Hnone. split; [|apply resolve_all_post].
    pose proof (search_loop_returns W h models_list [] Hnone) as Hret.
    unfold resolve_all, search_coro, search_models_async. rewrite Htime.
    destruct (search_loop W h models_list []) as [h' r]. simpl in *.
    rewrite Hret. simpl.
    by destruct (filter _ models_list).
Qed.

Lemma lookup_failure_empties_batch_run :
  (resolve_all Sample.world Sample.heap [2; 3; 4]).1.2 = [2; 4].
Proof.
  destruct (lookup_failure_empties_batch Sample.world Sample.heap [2; 3; 4]
              eq_refl) as [_ Hok].
  destruct Hok as [-> _]; [|by vm_compute].
  intros m Hm [e He]. unfold Sample.world, Sample.naming in He. simpl in He.
  by case_bool_decide.
Defined.

(** Against C1 as stated: of three references, the lookup of the second
    raises, the first and the third have a repository, and the step returns
    neither. *)
Lemma lookup_failure_not_isolated :
  lookup_found Sample.world_raising Sample.heap 2 = Some (PyStr "org/repo")
  ∧ search_for_model Sample.world_raising (filename (Sample.heap 3))
    = LookupRaises (Exception "connection reset")
  ∧ lookup_found Sample.world_raising Sample.heap 4 = Some (PyStr "org/repo")
  ∧ (resolve_all Sample.world_raising Sample.heap [2; 3; 4]).1.2 = [].
Proof. by vm_compute. Qed.

(** ** [process] *)

Lemma process_rescan (L : Lib) (W : World) (h : Heap) (self : Self)
    (select_model : option string) (prompt : Prompt) (node_id fp : string) :
  _get_workflow_hash L prompt = inr fp →
  no_selection select_model || workflow_changed fp self = true →
  process L W h self select_model prompt node_id
  = scan_cycle W h self fp prompt node_id.
Proof. intros Hfp Hcond. unfold process. by rewrite Hfp, Hcond. Qed.

Lemma process_select (L : Lib) (W : World) (h : Heap) (self : Self)
    (name : string) (prompt : Prompt) (node_id fp : string) :
  _get_workflow_hash L prompt = inr fp →
  no_selection (Some name) = false →
  workflow_changed fp self = false →
  process L W h self (Some name) prompt node_id
  = mkOutcome (select h (missing_models self) name) h self [].
Proof. intros Hfp Hsel Hsame. unfold process. by rewrite Hfp, Hsel, Hsame. Qed.

(** The cycle when nothing resolved. *)
Lemma scan_cycle_empty (W : World) (h : Heap) (self : Self)
    (fp : string) (prompt : Prompt) (node_id : string) :
  valid_models W h prompt = [] →
  scan_cycle W h self fp prompt node_id
  = mkOutcome (inr no_valid_models)
      (resolve_all W h (dedupe h (scanned_models W prompt))).1.1
      (set_missing_models [] (set_log "" self))
      ((_run_async_in_thread (scan_workflow W prompt)).2
         ++ (resolve_all W h (dedupe h (scanned_models W prompt))).2).
Proof.
  unfold scan_cycle, valid_models, scanned_models.
  destruct (_run_async_in_thread (scan_workflow W prompt)) as [scanned ev1].
  simpl.
  destruct (resolve_all W h _) as [[h1 valid] ev2]. simpl. by intros ->.
Qed.

(** The cycle when something resolved. *)
Lemma scan_cycle_nonempty (W : World) (h : Heap) (self : Self)
    (fp : string) (prompt : Prompt) (node_id : string) :
  valid_models W h prompt ≠ [] →
  let valid := valid_models W h prompt in
  let h1 := (resolve_all W h (dedupe h (scanned_models W prompt))).1.1 in
  let h2 := (foldl merge_model (h1, valid) valid).1 in
  scan_cycle W h self fp prompt node_id
  = mkOutcome (first_triple h2 valid) h2
      (set_last_workflow_hash (Some fp)
         (set_missing_models valid (set_log "" self)))
      ((_run_async_in_thread (scan_workflow W prompt)).2
         ++ (resolve_all W h (dedupe h (scanned_models W prompt))).2
         ++ [SendSync "scan_complete" node_id (h2 <$> valid)]).
Proof.
  unfold scan_cycle, valid_models, scanned_models, _update_model_list.
  destruct (_run_async_in_thread (scan_workflow W prompt)) as [scanned ev1].
  simpl.
  destruct (resolve_all W h _) as [[h1 valid] ev2]. simpl.
  destruct valid as [|v valid]; [done|]. intros _.
  pose proof (merge_loop_within h1 (v :: valid) (v :: valid)) as Hsame.
  destruct (foldl merge_model (h1, v :: valid) (v :: valid)) as [h2 cache].
  simpl in *. by rewrite Hsame.
Qed.

Lemma first_triple_resolved (h : Heap) (valid : list loc) :
  valid ≠ [] → all_resolved h valid → ∃ t, first_triple h valid = inr t.
Proof.
  destruct valid as [|m valid]; [done|]. intros _ Hall. simpl.
  specialize (Hall m). unfold get_repo_id in Hall.
  destruct (repo_id (h m)); [eauto|]. by discriminate Hall; left.
Qed.

(** What every run of the cycle leaves behind it. *)
Lemma scan_cycle_post (W : World) (h : Heap) (self : Self)
    (fp : string) (prompt : Prompt) (node_id : string) :
  let o := scan_cycle W h self fp prompt node_id in
  missing_models (out_self o) = valid_models W h prompt
  ∧ all_resolved (out_heap o) (missing_models (out_self o))
  ∧ (∀ l, identifier (out_heap o l) = identifier (h l))
  ∧ ∃ t, out_result o = inr t.
Proof.
  pose proof (resolve_all_post W h (dedupe h (scanned_models W prompt)))
    as (Hid & Hall & _). fold (valid_models W h prompt) in Hall.
  destruct (decide (valid_models W h prompt = [])) as [Hempty|Hsome].
  - rewrite (scan_cycle_empty _ _ _ _ _ _ Hempty). simpl.
    split_and!; [done| |done|by eauto]. by intros e ?%elem_of_nil.
  - rewrite (scan_cycle_nonempty _ _ _ _ _ _ Hsome). simpl.
    pose proof (merge_loop_all_resolved _ _ _ Hall Hall) as Hall2.
    rewrite merge_loop_within in Hall2 by done.
    split_and!; [done..| |by apply first_triple_resolved].
    intros l.
    destruct (merge_loop_post
      (resolve_all W h (dedupe h (scanned_models W prompt))).1.1
      (valid_models W h prompt) (valid_models W h prompt)) as [Hid2 _ _ _ _].
    by rewrite Hid2, Hid.
Qed.

(** C10: when [process] has run the scan and the lookups, every record it
    leaves in [self.missing_models] has a truthy ['repo_id'], is a record the
    scan returned, and bears a file name the naming service resolved; a
    scanned record whose lookup gave nothing is not in the list.  The call
    returns a triple. *)
Theorem rescan_keeps_resolved_only (L : Lib) (W : World) (h : Heap)
    (self : Self) (select_model : option string) (prompt : Prompt)
    (node_id fp : string) :
  _get_workflow_hash L prompt = inr fp →
  no_selection select_model || workflow_changed fp self = true →
  let o := process L W h self select_model prompt node_id in
  (∃ t, out_result o = inr t)
  ∧ all_resolved (out_heap o) (missing_models (out_self o))
  ∧ (∀ e, e ∈ missing_models (out_self o) →
       e ∈ scanned_models W prompt ∧ is_Some (lookup_found W h e))
  ∧ (∀ m, m ∈ scanned_models W prompt → lookup_found W h m = None →
       m ∉ missing_models (out_self o)).
Proof.
  intros Hfp Hcond. rewrite (process_rescan _ _ _ _ _ _ _ _ Hfp Hcond).
  destruct (scan_cycle_post W h self fp prompt node_id)
    as (Hlist & Hall & _ & Hres).
  assert (Hin : ∀ e, e ∈ valid_models W h prompt →
    e ∈ scanned_models W prompt ∧ is_Some (lookup_found W h e)).
  { intros e He.
    destruct (resolve_all_post W h (dedupe h (scanned_models W prompt)))
      as (_ & _ & Hsub).
    destruct (Hsub e He) as [Hd ?]. split; [|done].
    by apply (dedupe_loop_elem h ∅) in Hd as [? _]. }
  simpl. rewrite Hlist. split_and!; [done| |done|].
  - by rewrite <- Hlist.
  - intros m _ Hnone Hm. destruct (Hin m Hm) as [_ [v Hv]]. congruence.
Qed.

Lemma rescan_keeps_resolved_only_run :
  let o := process Sample.lib Sample.world Sample.heap init
             (Some "Scan First") (PromptDict Sample.graph) "9" in
  missing_models (out_self o) = [2; 4]
  ∧ all_resolved (out_heap o) (missing_models (out_self o)).
Proof.
  split; [by vm_compute|].
  apply (rescan_keeps_resolved_only Sample.lib Sample.world Sample.heap init
           (Some "Scan First") (PromptDict Sample.graph) "9"
           Sample.fingerprint); by vm_compute.
Defined.

Lemma valid_models_nothing_scanned (W : World) (h : Heap) (prompt : Prompt) :
  scanned_models W prompt = [] → valid_models W h prompt = [].
Proof.
  intros Hscan.
  destruct (resolve_all_post W h (dedupe h (scanned_models W prompt)))
    as (_ & _ & Hsub). fold (valid_models W h prompt) in Hsub.
  destruct (valid_models W h prompt) as [|m l]; [done|].
  destruct (Hsub m) as [Hm _]; [by left|].
  rewrite Hscan in Hm. by apply elem_of_nil in Hm.
Qed.

(** C4 (as the code has it): a cycle that resolves nothing, also one whose
    scan finds nothing, returns ("No valid models found", "", ""), leaves
    the list empty and leaves [last_workflow_hash] as it was before the
    call. *)
Theorem empty_cycle_keeps_hash (L : Lib) (W : World) (h : Heap)
    (self : Self) (select_model : option string) (prompt : Prompt)
    (node_id fp : string) :
  _get_workflow_hash L prompt = inr fp →
  no_selection select_model || workflow_changed fp self = true →
  scanned_models W prompt = [] ∨ valid_models W h prompt = [] →
  let o := process L W h self select_model prompt node_id in
  out_result o = inr no_valid_models
  ∧ missing_models (out_self o) = []
  ∧ last_workflow_hash (out_self o) = last_workflow_hash self.
Proof.
  intros Hfp Hcond Hnone. rewrite (process_rescan _ _ _ _ _ _ _ _ Hfp Hcond).
  assert (Hempty : valid_models W h prompt = []).
  { destruct Hnone; [by apply valid_models_nothing_scanned|done]. }
  by rewrite (scan_cycle_empty _ _ _ _ _ _ Hempty).
Qed.

Lemma empty_cycle_keeps_hash_run :
  let o := process Sample.lib Sample.world_empty Sample.heap init
             (Some "Scan First") (PromptDict Sample.graph) "9" in
  out_result o = inr no_valid_models
  ∧ missing_models (out_self o) = []
  ∧ last_workflow_hash (out_self o) = None.
Proof.
  apply (empty_cycle_keeps_hash Sample.lib Sample.world_empty Sample.heap init
           (Some "Scan First") (PromptDict Sample.graph) "9"
           Sample.fingerprint); [by vm_compute..|].
  left. by vm_compute.
Defined.

(** Against C4 as stated: the scan of a workflow of hash
    [Sample.fingerprint] finds nothing, the call returns the placeholder
    triple, and the hash held by the instance is not that of the workflow. *)
Lemma empty_cycle_hash_not_recorded :
  let o := process Sample.lib Sample.world_empty Sample.heap init
             (Some "Scan First") (PromptDict Sample.graph) "9" in
  _get_workflow_hash Sample.lib (PromptDict Sample.graph)
    = inr Sample.fingerprint
  ∧ out_result o = inr no_valid_models
  ∧ last_workflow_hash (out_self o) ≠ Some Sample.fingerprint.
Proof. vm_compute. by split_and!. Qed.

(** A cycle that resolves something records the hash. *)
Lemma nonempty_cycle_records_hash (L : Lib) (W : World) (h : Heap)
    (self : Self) (select_model : option string) (prompt : Prompt)
    (node_id fp : string) :
  _get_workflow_hash L prompt = inr fp →
  no_selection select_model || workflow_changed fp self = true →
  valid_models W h prompt ≠ [] →
  last_workflow_hash
    (out_self (process L W h self select_model prompt node_id)) = Some fp.
Proof.
  intros Hfp Hcond Hsome. rewrite (process_rescan _ _ _ _ _ _ _ _ Hfp Hcond).
  by rewrite (scan_cycle_nonempty _ _ _ _ _ _ Hsome).
Qed.

Lemma select_message (h : Heap) (cache : list loc) (name : string) :
  select h cache name ≠ inl (Exception "Select a model").
Proof.
  unfold select. destruct (find_existing h name cache); [|done].
  by destruct (truthy _).
Qed.

(** C6 (as the code has it): a call with the selection "Scan First", or
    with none, runs the scan and the lookups whether the workflow has
    changed or not, and returns a triple; no call of [process] raises
    "Select a model". *)
Theorem default_selection_rescans (L : Lib) (W : World) (h : Heap)
    (self : Self) (select_model : option string) (prompt : Prompt)
    (node_id fp : string) :
  _get_workflow_hash L prompt = inr fp →
  no_selection select_model = true →
  process L W h self select_model prompt node_id
  = scan_cycle W h self fp prompt node_id
  ∧ (∃ t, out_result (process L W h self select_model prompt node_id) = inr t)
  ∧ ∀ W' h' self' select_model' prompt' node_id',
      out_result (process L W' h' self' select_model' prompt' node_id')
      ≠ inl (Exception "Select a model").
Proof.
  intros Hfp Hsel.
  assert (Hre : process L W h self select_model prompt node_id
                = scan_cycle W h self fp prompt node_id).
  { apply process_rescan; [done|]. by rewrite Hsel. }
  split_and!; [done| |].
  - rewrite Hre. apply scan_cycle_post.
  - intros W' h' self' sel' prompt' node'. unfold process.
    destruct (_get_workflow_hash L prompt') as [e|fp'] eqn:Hfp'.
    { simpl. destruct prompt'; simpl in Hfp';
        [destruct (json_loads L s)|]; congruence. }
    destruct (no_selection sel') eqn:Hsel'; simpl.
    + destruct (scan_cycle_post W' h' self' fp' prompt' node')
        as (_ & _ & _ & [t Ht]). by rewrite Ht.
    + destruct (workflow_changed fp' self'); simpl.
      * destruct (scan_cycle_post W' h' self' fp' prompt' node')
          as (_ & _ & _ & [t Ht]). by rewrite Ht.
      * apply select_message.
Qed.

Lemma default_selection_rescans_run :
  ∃ t, out_result (process Sample.lib Sample.world Sample.heap Sample.cached
                     (Some "Scan First") (PromptDict Sample.graph) "9")
       = inr t.
Proof.
  apply (default_selection_rescans Sample.lib Sample.world Sample.heap
           Sample.cached (Some "Scan First") (PromptDict Sample.graph) "9"
           Sample.fingerprint); by vm_compute.
Defined.

(** Against C6 as stated: the workflow is the one of the last scan, the
    selection is "Scan First", and the call returns the triple of the first
    resolved record. *)
Lemma default_selection_returns_triple :
  workflow_changed Sample.fingerprint Sample.cached = false
  ∧ _get_workflow_hash Sample.lib (PromptDict Sample.graph)
    = inr Sample.fingerprint
  ∧ out_result (process Sample.lib Sample.world Sample.heap Sample.cached
                  (Some "Scan First") (PromptDict Sample.graph) "9")
    = inr (PyStr "org/repo", "a.safetensors", "checkpoints").
Proof. by vm_compute. Qed.

(** C3: when the wait on the search expires, whatever the worker has
    resolved by then, the orchestration step returns the empty list and
    asks the future to cancel; a call of [process] that runs the cycle then
    returns the placeholder triple (it raises nothing), with the list left
    empty and the request to cancel among its effects. *)
Theorem search_timeout_yields_nothing (W : World) (h : Heap)
    (models_list partial : list loc) (k : nat) :
  lookups_before_timeout W = Some k →
  (search_models_async W h (take k models_list)).2 = inr partial →
  (resolve_all W h models_list).1.2 = []
  ∧ (resolve_all W h models_list).2 = [FutureCancel]
  ∧ ∀ L self select_model prompt node_id fp,
      _get_workflow_hash L prompt = inr fp →
      no_selection select_model || workflow_changed fp self = true →
      dedupe h (scanned_models W prompt) = models_list →
      let o := process L W h self select_model prompt node_id in
      out_result o = inr no_valid_models
      ∧ missing_models (out_self o) = []
      ∧ FutureCancel ∈ out_events o.
Proof.
  intros Htime Hpartial.
  assert (Hhangs : (search_coro W h models_list).2 = Hangs).
  { unfold search_coro. rewrite Htime.
    destruct (search_models_async W h (take k models_list)) as [h' r].
    simpl in *. by rewrite Hpartial. }
  destruct (resolve_all_hangs W h models_list Hhangs) as [Hnone Hev].
  split_and!; [done..|].
  intros L self sel prompt node fp Hfp Hcond Hmodels.
  rewrite (process_rescan _ _ _ _ _ _ _ _ Hfp Hcond).
  assert (Hempty : valid_models W h prompt = []).
  { unfold valid_models. by rewrite Hmodels. }
  rewrite (scan_cycle_empty _ _ _ _ _ _ Hempty). simpl.
  split_and!; [done..|]. rewrite Hmodels, Hev.
  apply elem_of_app. right. by left.
Qed.

Lemma search_timeout_yields_nothing_run :
  (search_models_async Sample.world_slow Sample.heap (take 1 [2; 3; 4])).2
    = inr [2]
  ∧ (resolve_all Sample.world_slow Sample.heap [2; 3; 4]).1.2 = []
  ∧ (resolve_all Sample.world_slow Sample.heap [2; 3; 4]).2 = [FutureCancel].
Proof.
  split; [by vm_compute|].
  destruct (search_timeout_yields_nothing Sample.world_slow Sample.heap
              [2; 3; 4] [2] 1 eq_refl) as (Hnone & Hev & _); [by vm_compute|].
  by split.
Defined.

(** ** Selection *)

Lemma truthy_get_repo_id_or_empty (m : Model) :
  truthy (get_repo_id_or_empty m) = truthy (get_repo_id m)
  ∧ (truthy (get_repo_id m) = true → get_repo_id_or_empty m = get_repo_id m).
Proof.
  unfold get_repo_id_or_empty, get_repo_id. by destruct (repo_id m).
Qed.

(** C5: the selection fails with "Model not found" when no cached record
    has the requested file name, fails with "No repository found" when the
    record found (the first of that file name) has no ['repo_id'], or a
    falsy one, and otherwise returns the (repo_id, filename, local_path)
    of that record; one of the three applies.  A call of [process] with that
    selection on an unchanged workflow is this selection, and leaves store
    and instance as they were, with no effect. *)
Theorem select_protocol (h : Heap) (cache : list loc) (name : string) :
  ((∀ e, e ∈ cache → filename (h e) ≠ name) →
     select h cache name = inl (Exception "Model not found"))
  ∧ (∀ e, first_match h name cache e →
       truthy (get_repo_id (h e)) = false →
       select h cache name = inl (Exception "No repository found"))
  ∧ (∀ e, first_match h name cache e →
       truthy (get_repo_id (h e)) = true →
       select h cache name
       = inr (get_repo_id (h e), filename (h e), local_path (h e))
       ∧ filename (h e) = name)
  ∧ ((∀ e, e ∈ cache → filename (h e) ≠ name)
     ∨ ∃ e, first_match h name cache e)
  ∧ ∀ L W self prompt node_id fp,
      _get_workflow_hash L prompt = inr fp →
      last_workflow_hash self = Some fp →
      name ≠ "" → name ≠ "Scan First" →
      missing_models self = cache →
      process L W h self (Some name) prompt node_id
      = mkOutcome (select h cache name) h self [].
Proof.
  split_and!.
  - intros Hnone%find_existing_None. unfold select. by rewrite Hnone.
  - intros e He%find_existing_Some Hrepo. unfold select. rewrite He.
    destruct (truthy_get_repo_id_or_empty (h e)) as [-> _]. by rewrite Hrepo.
  - intros e Hfirst Hrepo. pose proof Hfirst as He%find_existing_Some.
    unfold select. rewrite He.
    destruct (truthy_get_repo_id_or_empty (h e)) as [Ht ->]; [|done].
    rewrite Hrepo. split; [done|]. by destruct Hfirst as (_ & _ & ? & _).
  - destruct (find_existing h name cache) as [e|] eqn:He.
    + right. exists e. by apply find_existing_Some.
    + left. by apply find_existing_None.
  - intros L W self prompt node fp Hfp Hlast Hne1 Hne2 <-.
    apply (process_select _ _ _ _ _ _ _ fp); [done| |].
    + simpl. by rewrite !bool_decide_eq_false_2.
    + unfold workflow_changed. by rewrite Hlast, bool_decide_eq_true_2.
Qed.

Lemma select_protocol_run :
  process Sample.lib Sample.world Sample.heap Sample.cached
    (Some "model.safetensors") (PromptDict Sample.graph) "9"
  = mkOutcome (inr (PyStr "org/repo", "model.safetensors", "loras"))
      Sample.heap Sample.cached [].
Proof.
  destruct (select_protocol Sample.heap [1] "model.safetensors")
    as (_ & _ & _ & _ & Hprocess).
  rewrite (Hprocess Sample.lib Sample.world Sample.cached
             (PromptDict Sample.graph) "9" Sample.fingerprint);
    done || by vm_compute.
Defined.

(** * Further properties *)

(** ** Records *)

Lemma Model_eq (a b : Model) :
  identifier a = identifier b → repo_id a = repo_id b → a = b.
Proof. destruct a, b. unfold identifier. simpl. by intros [= -> ->] ->. Qed.

Lemma set_repo_id_twice (v w : PyVal) (m : Model) :
  set_repo_id v (set_repo_id w m) = set_repo_id v m.
Proof. done. Qed.

Lemma set_repo_id_store (h : Heap) (l l' : loc) (v w : PyVal) :
  set_repo_id v (store h l (set_repo_id w (h l)) l') = set_repo_id v (h l').
Proof.
  destruct (decide (l' = l)) as [->|Hne].
  - by rewrite store_eq.
  - by rewrite store_ne.
Qed.

(** ** What the lookups write *)

(** The loop writes to the records of its list only, and what it writes is
    the repository the naming service gave for the file name; when it
    returns, every record the service resolved holds that repository. *)
Lemma search_loop_store (W : World) (h : Heap) (models_list results : list loc) :
  (∀ l, (search_loop W h models_list results).1 l = h l
        ∨ l ∈ models_list
          ∧ ∃ v, lookup_found W h l = Some v
                 ∧ (search_loop W h models_list results).1 l
                   = set_repo_id v (h l))
  ∧ (∀ out, (search_loop W h models_list results).2 = inr out →
       ∀ m v, m ∈ models_list → lookup_found W h m = Some v →
         (search_loop W h models_list results).1 m = set_repo_id v (h m)).
Proof.
  revert h results.
  induction models_list as [|model rest IH]; intros h results; simpl.
  - split; [by left|]. by intros out _ m v ?%elem_of_nil.
  - destruct (search_for_model W (filename (h model))) as [result|e] eqn:Hlk;
      simpl; [|split; [by left|done]].
    destruct (found_repo result) as [v0|] eqn:Hv.
    + assert (Hfound : lookup_found W h model = Some v0)
        by (unfold lookup_found; by rewrite Hlk).
      set (h1 := store h model (set_repo_id v0 (h model))).
      assert (Hext : ∀ l, lookup_found W h1 l = lookup_found W h l).
      { intros l. apply lookup_found_ext. intros l'.
        apply store_repo_identifier. }
      destruct (IH h1 (results ++ [model])) as [Hw Hr]. split.
      * intros l. destruct (Hw l) as [->|(Hl & v & Hv1 & ->)].
        -- unfold h1. destruct (decide (l = model)) as [->|Hne].
           ++ right. split; [by left|]. exists v0. by rewrite store_eq.
           ++ left. by rewrite store_ne.
        -- right. split; [by right|]. exists v. rewrite <- Hext.
           split; [done|]. apply set_repo_id_store.
      * intros out Hout m v [->|Hm]%elem_of_cons Hmv.
        -- assert (v = v0) as -> by congruence.
           destruct (Hw model) as [->|(_ & v & Hv1 & ->)].
           ++ unfold h1. by rewrite store_eq.
           ++ rewrite Hext in Hv1. assert (v = v0) as -> by congruence.
              apply set_repo_id_store.
        -- rewrite (Hr out Hout m v Hm) by (by rewrite Hext).
           apply set_repo_id_store.
    + destruct (IH h results) as [Hw Hr]. split.
      * intros l. destruct (Hw l) as [?|(Hl & v & ? & ?)]; [by left|].
        right. split; [by right|]. by exists v.
      * intros out Hout m v [->|Hm]%elem_of_cons Hmv; [|by eapply Hr].
        unfold lookup_found in Hmv. rewrite Hlk in Hmv. congruence.
Qed.

Lemma resolve_all_sublist (W : World) (h : Heap) (models_list : list loc) :
  (resolve_all W h models_list).1.2 `sublist_of` models_list.
Proof.
  unfold resolve_all, search_coro, search_models_async.
  destruct (lookups_before_timeout W) as [k|].
  - destruct (search_loop W h (take k models_list) []) as [h' [e|out]];
      simpl; apply sublist_nil_l.
  - pose proof (search_loop_post W h models_list []) as [_ _ _ Hret].
    destruct (search_loop W h models_list []) as [h' [e|out]]; simpl in *;
      [apply sublist_nil_l|].
    destruct (Hret out eq_refl) as (_ & -> & _).
    destruct (filter _ models_list) eqn:E; [apply sublist_nil_l|].
    rewrite <- E. apply sublist_filter.
Qed.

Lemma resolve_all_store (W : World) (h : Heap) (models_list : list loc) :
  (∀ l, (resolve_all W h models_list).1.1 l = h l
        ∨ l ∈ models_list
          ∧ ∃ v, lookup_found W h l = Some v
                 ∧ (resolve_all W h models_list).1.1 l = set_repo_id v (h l))
  ∧ (∀ m, m ∈ (resolve_all W h models_list).1.2 →
       ∃ v, lookup_found W h m = Some v ∧ truthy v = true
            ∧ (resolve_all W h models_list).1.1 m = set_repo_id v (h m)).
Proof.
  unfold resolve_all, search_coro, search_models_async.
  destruct (lookups_before_timeout W) as [k|].
  - pose proof (search_loop_store W h (take k models_list) []) as [Hw _].
    destruct (search_loop W h (take k models_list) []) as [h' r].
    simpl in Hw.
    assert (Hw' : ∀ l, h' l = h l
        ∨ l ∈ models_list
          ∧ ∃ v, lookup_found W h l = Some v ∧ h' l = set_repo_id v (h l)).
    { intros l. destruct (Hw l) as [?|[Hl ?]]; [by left|right].
      split; [|done]. eapply elem_of_sublist; [done|apply sublist_take]. }
    destruct r as [e|out]; simpl; (split; [done|by intros m ?%elem_of_nil]).
  - pose proof (search_loop_store W h models_list []) as [Hw Hr].
    pose proof (search_loop_post W h models_list []) as [_ _ _ Hret].
    destruct (search_loop W h models_list []) as [h' [e|out]]; simpl in *.
    { split; [done|by intros m ?%elem_of_nil]. }
    destruct (Hret out eq_refl) as (_ & Hout & _). simpl in Hout.
    split; [done|].
    assert (Hin : ∀ m, m ∈ out →
      ∃ v, lookup_found W h m = Some v ∧ truthy v = true
           ∧ h' m = set_repo_id v (h m)).
    { intros m Hm. rewrite Hout in Hm.
      apply list_elem_of_filter in Hm as [[v Hv] Hm]. exists v.
      split_and!; [done| |by eapply Hr].
      unfold lookup_found in Hv.
      destruct (search_for_model W (filename (h m))); [|done].
      by eapply found_repo_truthy. }
    destruct out; [by intros m ?%elem_of_nil|done].
Qed.

(** The orchestration step, however the worker ends (it returns, a lookup
    raises, the wait expires), writes to no record outside its list and
    writes nothing but the repository the naming service gave for the
    record's file name; each record it returns holds that repository, which
    is a truthy value. *)
Theorem resolve_all_writes_found_repo (W : World) (h : Heap)
    (models_list : list loc) :
  let '(h', valid, _) := resolve_all W h models_list in
  (∀ l, h' l = h l
        ∨ l ∈ models_list
          ∧ ∃ v, lookup_found W h l = Some v ∧ h' l = set_repo_id v (h l))
  ∧ (∀ m, m ∈ valid →
       ∃ v, lookup_found W h m = Some v ∧ truthy v = true
            ∧ h' m = set_repo_id v (h m)).
Proof.
  pose proof (resolve_all_store W h models_list) as Hs.
  by destruct (resolve_all W h models_list) as [[h' valid] ev].
Qed.

(** ** The order of the resolved records *)

(** [valid_models] is a subsequence of what the scan returned: the
    resolved records come in the order the scan gave them, and no
    (filename, local_path) pair comes twice. *)
Theorem valid_models_in_scan_order (W : World) (h : Heap) (prompt : Prompt) :
  valid_models W h prompt `sublist_of` scanned_models W prompt
  ∧ NoDup ((λ m, identifier (h m)) <$> valid_models W h prompt).
Proof.
  assert (Hsub : valid_models W h prompt
                 `sublist_of` dedupe h (scanned_models W prompt))
    by apply resolve_all_sublist.
  split.
  - etrans; [exact Hsub|]. apply dedupe_loop_sublist.
  - eapply sublist_NoDup; [apply dedupe_loop_NoDup|]. by apply fmap_sublist.
Qed.

(** ** The refresh of the list *)

(** The merge writes to cached records only. *)
Lemma merge_loop_frame (h : Heap) (cache models : list loc) (l : loc) :
  (foldl merge_model (h, cache) models).1 l = h l
  ∨ l ∈ (foldl merge_model (h, cache) models).2.
Proof.
  revert h cache. induction models as [|x rest IH]; intros h cache; simpl.
  - by left.
  - unfold merge_model at 2 4.
    destruct (find_existing h (filename (h x)) cache) as [e|] eqn:He.
    + destruct (IH (store h e (set_repo_id (get_repo_id (h x)) (h e))) cache)
        as [Hl|Hl]; [|by right].
      destruct (decide (l = e)) as [->|Hne].
      * right. apply find_existing_elem in He as [He _].
        destruct (merge_loop_post
          (store h e (set_repo_id (get_repo_id (h x)) (h e))) cache rest)
          as [_ [more (-> & _)] _ _ _].
        apply elem_of_app. by left.
      * left. by rewrite Hl, store_ne.
    + apply IH.
Qed.

(** After the lookups the refresh of [self.missing_models] from itself
    changes no record: each write puts back the repository the record
    holds. *)
Lemma merge_resolved_noop (W : World) (h h1 : Heap) (valid : list loc) :
  (∀ l, identifier (h1 l) = identifier (h l)) →
  (∀ m, m ∈ valid → ∃ v, lookup_found W h m = Some v
                         ∧ h1 m = set_repo_id v (h m)) →
  ∀ l, (foldl merge_model (h1, valid) valid).1 l = h1 l.
Proof.
  intros Hid Hvalid l.
  destruct (merge_loop_post h1 valid valid) as [Hid2 _ _ Hrepo _].
  destruct (merge_loop_frame h1 valid valid l) as [?|Hl]; [done|].
  rewrite merge_loop_within in Hl by done.
  apply Model_eq; [done|].
  destruct (Hrepo l) as [?|(x & Hx & Hfn & ->)]; [done|].
  destruct (Hvalid l Hl) as (v & Hv & Hl1).
  destruct (Hvalid x Hx) as (vx & Hvx & Hx1).
  assert (filename (h x) = filename (h l)) as Hfn'.
  { rewrite <- (f_equal fst (Hid x) : filename (h1 x) = filename (h x)).
    by rewrite <- (f_equal fst (Hid l) : filename (h1 l) = filename (h l)). }
  unfold lookup_found in Hv, Hvx. rewrite Hfn' in Hvx.
  assert (vx = v) as -> by congruence.
  by rewrite Hx1, Hl1.
Qed.

(** The store after a cycle is the store after the lookups. *)
Lemma scan_cycle_heap (W : World) (h : Heap) (self : Self)
    (fp : string) (prompt : Prompt) (node_id : string) (l : loc) :
  out_heap (scan_cycle W h self fp prompt node_id) l
  = (resolve_all W h (dedupe h (scanned_models W prompt))).1.1 l.
Proof.
  destruct (decide (valid_models W h prompt = [])) as [Hempty|Hsome].
  - by rewrite (scan_cycle_empty _ _ _ _ _ _ Hempty).
  - rewrite (scan_cycle_nonempty _ _ _ _ _ _ Hsome). simpl.
    destruct (resolve_all_store W h (dedupe h (scanned_models W prompt)))
      as [_ Hvalid].
    pose proof (resolve_all_post W h (dedupe h (scanned_models W prompt)))
      as (Hid & _).
    apply (merge_resolved_noop W h); [done|].
    intros m Hm. destruct (Hvalid m Hm) as (v & ? & _ & ?). eauto.
Qed.

(** ** The cycle that resolves something *)

(** Each record of the list a cycle leaves holds the repository the naming
    service gave for its file name. *)
Lemma scan_cycle_records (W : World) (h : Heap) (self : Self)
    (fp : string) (prompt : Prompt) (node_id : string) (e : loc) :
  e ∈ valid_models W h prompt →
  ∃ v, lookup_found W h e = Some v ∧ truthy v = true
       ∧ out_heap (scan_cycle W h self fp prompt node_id) e
         = set_repo_id v (h e).
Proof.
  intros He. rewrite scan_cycle_heap.
  destruct (resolve_all_store W h (dedupe h (scanned_models W prompt)))
    as [_ Hvalid].
  by apply Hvalid.
Qed.

(** A cycle that resolves something has met no timeout and no exception. *)
Lemma scan_cycle_quiet (W : World) (h : Heap) (prompt : Prompt) :
  valid_models W h prompt ≠ [] →
  (_run_async_in_thread (scan_workflow W prompt)).2 = []
  ∧ (resolve_all W h (dedupe h (scanned_models W prompt))).2 = [].
Proof.
  intros Hsome. split.
  - destruct (scan_workflow W prompt) as [a|e|] eqn:Hscan; [done|done|].
    destruct Hsome. apply valid_models_nothing_scanned.
    unfold scanned_models. by rewrite Hscan.
  - unfold valid_models in Hsome. unfold resolve_all in *.
    destruct (search_coro W h (dedupe h (scanned_models W prompt)))
      as [h' [out|e|]]; by simpl in *.
Qed.

(** When the cycle resolves something, [process] returns the file name and
    the path of the first resolved record with the repository the naming
    service gave for it, holds exactly the resolved records, has recorded
    the hash of the workflow, and has sent one "scan_complete" message with
    the node id and those records, each with its repository. *)
Theorem rescan_returns_first_resolved (L : Lib) (W : World) (h : Heap)
    (self : Self) (select_model : option string) (prompt : Prompt)
    (node_id fp : string) (m : loc) (rest : list loc) :
  _get_workflow_hash L prompt = inr fp →
  no_selection select_model || workflow_changed fp self = true →
  valid_models W h prompt = m :: rest →
  let o := process L W h self select_model prompt node_id in
  (∃ v, lookup_found W h m = Some v ∧ truthy v = true
        ∧ out_result o = inr (v, filename (h m), local_path (h m)))
  ∧ missing_models (out_self o) = m :: rest
  ∧ last_workflow_hash (out_self o) = Some fp
  ∧ out_events o
    = [SendSync "scan_complete" node_id (out_heap o <$> (m :: rest))]
  ∧ ∀ e, e ∈ m :: rest →
      ∃ w, lookup_found W h e = Some w ∧ out_heap o e = set_repo_id w (h e).
Proof.
  intros Hfp Hcond Hvalid. rewrite (process_rescan _ _ _ _ _ _ _ _ Hfp Hcond).
  assert (Hsome : valid_models W h prompt ≠ []) by (by rewrite Hvalid).
  assert (Hrec : ∀ e, e ∈ m :: rest →
    ∃ v, lookup_found W h e = Some v ∧ truthy v = true
         ∧ out_heap (scan_cycle W h self fp prompt node_id) e
           = set_repo_id v (h e)).
  { intros e He. apply scan_cycle_records. by rewrite Hvalid. }
  destruct (scan_cycle_quiet W h prompt Hsome) as [Hev1 Hev2].
  revert Hrec. rewrite (scan_cycle_nonempty _ _ _ _ _ _ Hsome).
  rewrite Hev1, Hev2, Hvalid. simpl. intros Hrec. split_and!; [|done..|].
  - destruct (Hrec m) as (v & Hv & Ht & Hm); [by left|].
    exists v. split_and!; [done..|]. by rewrite Hm.
  - intros e He. destruct (Hrec e He) as (v & ? & _ & ?). eauto.
Qed.

Lemma rescan_returns_first_resolved_run :
  let o := process Sample.lib Sample.world Sample.heap init
             (Some "Scan First") (PromptDict Sample.graph) "9" in
  out_result o = inr (PyStr "org/repo", "a.safetensors", "checkpoints")
  ∧ missing_models (out_self o) = [2; 4]
  ∧ last_workflow_hash (out_self o) = Some Sample.fingerprint.
Proof.
  destruct (rescan_returns_first_resolved Sample.lib Sample.world Sample.heap
              init (Some "Scan First") (PromptDict Sample.graph) "9"
              Sample.fingerprint 2 [4])
    as ((v & Hv & _ & Hres) & Hlist & Hhash & _); [by vm_compute..|].
  split_and!; [|done..]. rewrite Hres.
  vm_compute in Hv. by injection Hv as <-.
Defined.

(** ** The second call *)

(** After a cycle, a call on the same workflow that selects the file name
    of a record of the list does not scan: it returns that file name with
    the repository the naming service gave for it and the path of the first
    record of that name, and leaves store and instance as the cycle left
    them, with no effect. *)
Theorem second_call_selects_from_cache (L : Lib) (W W' : World) (h : Heap)
    (self : Self) (select_model : option string) (prompt : Prompt)
    (node_id node_id' fp : string) (e : loc) :
  _get_workflow_hash L prompt = inr fp →
  no_selection select_model || workflow_changed fp self = true →
  let o := process L W h self select_model prompt node_id in
  e ∈ missing_models (out_self o) →
  filename (h e) ≠ "" → filename (h e) ≠ "Scan First" →
  ∃ e' v,
    first_match h (filename (h e)) (valid_models W h prompt) e'
    ∧ lookup_found W h e' = Some v
    ∧ process L W' (out_heap o) (out_self o) (Some (filename (h e)))
        prompt node_id'
      = mkOutcome (inr (v, filename (h e), local_path (h e')))
          (out_heap o) (out_self o) [].
Proof.
  intros Hfp Hcond. rewrite (process_rescan _ _ _ _ _ _ _ _ Hfp Hcond).
  destruct (scan_cycle_post W h self fp prompt node_id)
    as (Hlist & _ & Hid & _).
  simpl. rewrite Hlist. intros He Hne1 Hne2.
  assert (Hsome : valid_models W h prompt ≠ [])
    by (intros E; rewrite E in He; by apply elem_of_nil in He).
  assert (Hfn : ∀ l, filename
      (out_heap (scan_cycle W h self fp prompt node_id) l) = filename (h l))
    by (intros l; exact (f_equal fst (Hid l))).
  destruct (find_existing h (filename (h e)) (valid_models W h prompt))
    as [e'|] eqn:Hfind.
  2:{ by destruct (proj1 (find_existing_None _ _ _) Hfind e He). }
  pose proof (find_existing_elem _ _ _ _ Hfind) as [He' Hname].
  destruct (scan_cycle_records W h self fp prompt node_id e' He')
    as (v & Hv & Ht & Hrec).
  exists e', v. split_and!; [by apply find_existing_Some|done|].
  rewrite (process_select _ _ _ _ _ _ _ fp Hfp).
  - f_equal. unfold select. rewrite Hlist.
    rewrite (find_existing_ext h _ _ _ Hfn), Hfind, Hrec.
    unfold get_repo_id_or_empty.
    cbn [set_repo_id repo_id default filename local_path from_option id].
    by rewrite Ht, Hname.
  - simpl. by rewrite !bool_decide_eq_false_2.
  - rewrite (scan_cycle_nonempty _ _ _ _ _ _ Hsome). unfold workflow_changed.
    simpl. by rewrite bool_decide_eq_true_2.
Qed.

Lemma second_call_selects_from_cache_run :
  let o := process Sample.lib Sample.world Sample.heap init
             (Some "Scan First") (PromptDict Sample.graph) "9" in
  ∃ e' v,
    first_match Sample.heap (filename (Sample.heap 4))
      (valid_models Sample.world Sample.heap (PromptDict Sample.graph)) e'
    ∧ lookup_found Sample.world Sample.heap e' = Some v
    ∧ process Sample.lib Sample.world_raising (out_heap o) (out_self o)
        (Some (filename (Sample.heap 4))) (PromptDict Sample.graph) "9"
      = mkOutcome (inr (v, filename (Sample.heap 4),
                        local_path (Sample.heap e')))
          (out_heap o) (out_self o) [].
Proof.
  apply (second_call_selects_from_cache Sample.lib Sample.world
           Sample.world_raising Sample.heap init (Some "Scan First")
           (PromptDict Sample.graph) "9" "9" Sample.fingerprint 4).
  - by vm_compute.
  - by vm_compute.
  - vm_compute. apply list_elem_of_In. simpl. tauto.
  - by vm_compute.
  - by vm_compute.
Defined.

(** ** The three ways of [process] *)

Lemma process_cases (L : Lib) (W : World) (h : Heap) (self : Self)
    (select_model : option string) (prompt : Prompt) (node_id : string) :
  (∃ s, prompt = PromptStr s ∧ json_loads L s = None
        ∧ process L W h self select_model prompt node_id
          = mkOutcome (inl JSONDecodeError) h self [])
  ∨ (∃ fp, _get_workflow_hash L prompt = inr fp
           ∧ no_selection select_model || workflow_changed fp self = true
           ∧ process L W h self select_model prompt node_id
             = scan_cycle W h self fp prompt node_id)
  ∨ (∃ fp name, _get_workflow_hash L prompt = inr fp
                ∧ select_model = Some name
                ∧ name ≠ "" ∧ name ≠ "Scan First"
                ∧ last_workflow_hash self = Some fp
                ∧ process L W h self select_model prompt node_id
                  = mkOutcome (select h (missing_models self) name) h self []).
Proof.
  unfold process.
  destruct (_get_workflow_hash L prompt) as [e|fp] eqn:Hfp.
  - left. destruct prompt as [s|g]; simpl in Hfp; [|done].
    destruct (json_loads L s) eqn:Hs; [done|]. injection Hfp as <-. eauto.
  - right.
    destruct (no_selection select_model || workflow_changed fp self) eqn:Hcond.
    + left. eauto.
    + right. apply orb_false_elim in Hcond as [Hsel Hsame]. rewrite Hsel.
      destruct select_model as [name|]; [|done]. simpl in Hsel.
      apply orb_false_elim in Hsel as [H1 H2].
      apply bool_decide_eq_false in H1, H2.
      unfold workflow_changed in Hsame.
      apply negb_false_iff, bool_decide_eq_true in Hsame.
      exists fp, name. by split_and!.
Qed.



(** No call of [process] changes the [initialized] flag: it stays what
    [__init__] or [deserialize] made it. *)
Theorem process_keeps_initialized (L : Lib) (W : World) (h : Heap)
    (self : Self) (select_model : option string) (prompt : Prompt)
    (node_id : string) :
  initialized (out_self (process L W h self select_model prompt node_id))
  = initialized self.
Proof.
  destruct (process_cases L W h self select_model prompt node_id)
    as [(s & _ & _ & ->)|[(fp & _ & _ & ->)|(fp & name & _ & _ & _ & _ & _ & ->)]];
    [done| |done].
  destruct (decide (valid_models W h prompt = [])) as [Hempty|Hsome].
  - by rewrite (scan_cycle_empty _ _ _ _ _ _ Hempty).
  - by rewrite (scan_cycle_nonempty _ _ _ _ _ _ Hsome).
Qed.

(** [process] writes to the store through the lookups only: a record is
    left as it was, or it is a record the scan returned and has got, as its
    ['repo_id'], the repository the naming service gave for its file name.
    File names and paths never change. *)
Theorem process_writes_scanned_records_only (L : Lib) (W : World) (h : Heap)
    (self : Self) (select_model : option string) (prompt : Prompt)
    (node_id : string) (l : loc) :
  let o := process L W h self select_model prompt node_id in
  identifier (out_heap o l) = identifier (h l)
  ∧ (out_heap o l = h l
     ∨ l ∈ scanned_models W prompt
       ∧ ∃ v, lookup_found W h l = Some v ∧ truthy v = true
              ∧ out_heap o l = set_repo_id v (h l)).
Proof.
  simpl.
  destruct (process_cases L W h self select_model prompt node_id)
    as [(s & _ & _ & ->)|[(fp & _ & _ & ->)|(fp & name & _ & _ & _ & _ & _ & ->)]];
    [by split; [|left]| |by split; [|left]].
  rewrite scan_cycle_heap.
  destruct (resolve_all_post W h (dedupe h (scanned_models W prompt)))
    as (Hid & _).
  split; [done|].
  destruct (resolve_all_store W h (dedupe h (scanned_models W prompt)))
    as [Hw _].
  destruct (Hw l) as [?|(Hl & v & Hv & Hset)]; [by left|right].
  split; [by apply (dedupe_loop_elem h ∅) in Hl as [? _]|].
  exists v. split_and!; [done| |done].
  unfold lookup_found in Hv.
  destruct (search_for_model W (filename (h l))); [|done].
  by eapply found_repo_truthy.
Qed.

(** ** A scan that fails *)

(** A scan that raises, that does not end within the wait, or that returns
    [None] counts as a scan that found nothing: the cycle looks nothing up
    and writes to no record, [process] returns the placeholder triple with
    the list empty and the hash as it was, sends no "scan_complete", and
    has asked the future to cancel when the scan did not end. *)
Theorem failed_scan_is_empty_scan (L : Lib) (W : World) (h : Heap)
    (self : Self) (select_model : option string) (prompt : Prompt)
    (node_id fp : string) :
  _get_workflow_hash L prompt = inr fp →
  no_selection select_model || workflow_changed fp self = true →
  (∀ found, scan_workflow W prompt ≠ Returns (Some found)) →
  let o := process L W h self select_model prompt node_id in
  out_result o = inr no_valid_models
  ∧ missing_models (out_self o) = []
  ∧ last_workflow_hash (out_self o) = last_workflow_hash self
  ∧ (∀ l, out_heap o l = h l)
  ∧ (∀ ev, ev ∈ out_events o → ev = FutureCancel)
  ∧ (scan_workflow W prompt = Hangs → FutureCancel ∈ out_events o).
Proof.
  intros Hfp Hcond Hscan. rewrite (process_rescan _ _ _ _ _ _ _ _ Hfp Hcond).
  assert (Hnone : scanned_models W prompt = []).
  { unfold scanned_models.
    destruct (scan_workflow W prompt) as [[found|]|e|] eqn:E; try done.
    by destruct (Hscan found). }
  rewrite (scan_cycle_empty _ _ _ _ _ _
             (valid_models_nothing_scanned W h prompt Hnone)).
  rewrite Hnone. change (dedupe h []) with (@nil loc).
  assert (Hre : ∃ ev2, resolve_all W h [] = (h, [], ev2)
                       ∧ ∀ ev, ev ∈ ev2 → ev = FutureCancel).
  { unfold resolve_all, search_coro, search_models_async.
    destruct (lookups_before_timeout W) as [k|]; rewrite ?take_nil; simpl.
    - eexists. split; [done|]. by intros ev ->%list_elem_of_singleton.
    - eexists. split; [done|]. by intros ev ?%elem_of_nil. }
  destruct Hre as (ev2 & -> & Hev2). simpl. split_and!; [done..| |].
  - intros ev [Hev|Hev]%elem_of_app; [|by apply Hev2].
    destruct (scan_workflow W prompt) as [a|e|]; simpl in Hev.
    + by apply elem_of_nil in Hev.
    + by apply elem_of_nil in Hev.
    + by apply list_elem_of_singleton in Hev.
  - intros ->. simpl. by left.
Qed.

Lemma failed_scan_is_empty_scan_run :
  let o := process Sample.lib Sample.world_scan_hangs Sample.heap
             Sample.cached (Some "Scan First") (PromptDict Sample.graph) "9" in
  out_result o = inr no_valid_models
  ∧ missing_models (out_self o) = []
  ∧ FutureCancel ∈ out_events o.
Proof.
  destruct (failed_scan_is_empty_scan Sample.lib Sample.world_scan_hangs
              Sample.heap Sample.cached (Some "Scan First")
              (PromptDict Sample.graph) "9" Sample.fingerprint)
    as (Hres & Hlist & _ & _ & _ & Hcancel); [by vm_compute..|].
  split_and!; [done..|]. by apply Hcancel.
Defined.

(** ** The first call and the changed workflow *)

(** On an instance fresh from [__init__] every call with a workflow that
    parses runs the cycle, whatever the selection, and returns a triple:
    the first call never fails with "Model not found". *)
Theorem first_call_scans (L : Lib) (W : World) (h : Heap)
    (select_model : option string) (prompt : Prompt) (node_id fp : string) :
  _get_workflow_hash L prompt = inr fp →
  process L W h init select_model prompt node_id
  = scan_cycle W h init fp prompt node_id
  ∧ ∃ t, out_result (process L W h init select_model prompt node_id) = inr t.
Proof.
  intros Hfp.
  assert (Hre : process L W h init select_model prompt node_id
                = scan_cycle W h init fp prompt node_id).
  { apply process_rescan; [done|]. apply orb_true_r. }
  split; [done|]. rewrite Hre. apply scan_cycle_post.
Qed.

Lemma first_call_scans_run :
  ∃ t, out_result (process Sample.lib Sample.world Sample.heap init
                     (Some "model.safetensors") (PromptDict Sample.graph) "9")
       = inr t.
Proof.
  apply (first_call_scans Sample.lib Sample.world Sample.heap
           (Some "model.safetensors") (PromptDict Sample.graph) "9"
           Sample.fingerprint).
  by vm_compute.
Defined.

(** When the hash of the workflow is not the one the instance holds, the
    selection is not looked at: the outcome is the same for every selection,
    and it is a triple, also when the selection names no cached record. *)
Theorem changed_workflow_ignores_selection (L : Lib) (W : World) (h : Heap)
    (self : Self) (prompt : Prompt) (node_id fp : string) :
  _get_workflow_hash L prompt = inr fp →
  last_workflow_hash self ≠ Some fp →
  ∀ select_model select_model',
    process L W h self select_model prompt node_id
    = process L W h self select_model' prompt node_id
    ∧ ∃ t, out_result (process L W h self select_model prompt node_id)
           = inr t.
Proof.
  intros Hfp Hne sel sel'.
  assert (Hchanged : workflow_changed fp self = true).
  { unfold workflow_changed. by rewrite bool_decide_eq_false_2. }
  rewrite !(process_rescan _ _ _ _ _ _ _ fp Hfp)
    by (rewrite Hchanged; apply orb_true_r).
  split; [done|]. apply scan_cycle_post.
Qed.

Lemma changed_workflow_ignores_selection_run :
  process Sample.lib Sample.world Sample.heap Sample.cached
    (Some "model.safetensors") (PromptDict Sample.graph_changed) "9"
  = process Sample.lib Sample.world Sample.heap Sample.cached
      (Some "Scan First") (PromptDict Sample.graph_changed) "9".
Proof.
  apply (changed_workflow_ignores_selection Sample.lib Sample.world
           Sample.heap Sample.cached (PromptDict Sample.graph_changed) "9"
           (md5_hexdigest Sample.lib
              (json_dumps_sorted Sample.lib
                 (filtered_prompt Sample.graph_changed)))).
  - done.
  - vm_compute. by intros [=].
Defined.

(** ** Persistence and [process] *)

(** An instance restored from what [serialize] wrote behaves as the
    instance that was serialized: [process] gives the same result, the same
    store and the same effects on both, and the two end in states that
    serialize alike. *)
Theorem restored_instance_behaves_alike (L : Lib) (W : World) (h : Heap)
    (self other : Self) (select_model : option string) (prompt : Prompt)
    (node_id : string) :
  let o := process L W h self select_model prompt node_id in
  let o' := process L W h (deserialize other (serialize self))
              select_model prompt node_id in
  out_result o' = out_result o
  ∧ out_heap o' = out_heap o
  ∧ out_events o' = out_events o
  ∧ serialize (out_self o') = serialize (out_self o).
Proof.
  destruct self as [mm ini lh lg], other as [mm' ini' lh' lg'].
  unfold process, deserialize, serialize. simpl.
  destruct (_get_workflow_hash L prompt) as [e|fp]; [done|].
  unfold workflow_changed. simpl.
  destruct (no_selection select_model || negb (bool_decide (Some fp = lh)));
    [done|].
  by destruct (no_selection select_model).
Qed.

(** ** [_update_model_list] on the list itself *)

(** The loop of [_update_model_list] handed [self.missing_models] itself,
    as [process] calls it, ends after one iteration for each record the
    list had: it appends nothing, and it leaves the store and the list that
    the loop over a copy of the list leaves. *)
Theorem update_in_place_terminates (h : Heap) (cache : list loc) (fuel : nat) :
  length cache ≤ fuel →
  let '(h', cache', _) := _update_model_list h cache cache in
  update_in_place fuel 0 h cache = Some (h', cache') ∧ cache' = cache.
Proof.
  intros Hfuel. unfold _update_model_list.
  pose proof (update_in_place_drop fuel 0 h cache) as Hloop.
  rewrite drop_0 in Hloop.
  pose proof (merge_loop_within h cache cache) as Hsame.
  destruct (foldl merge_model (h, cache) cache) as [h' cache'].
  split; [apply Hloop; lia|by apply Hsame].
Qed.

Lemma update_in_place_terminates_run :
  update_in_place 2 0 Sample.heap [0; 1] = Some
    ((_update_model_list Sample.heap [0; 1] [0; 1]).1.1, [0; 1]).
Proof.
  pose proof (update_in_place_terminates Sample.heap [0; 1] 2) as Hrun.
  destruct (_update_model_list Sample.heap [0; 1] [0; 1]) as [[h' cache'] w].
  destruct Hrun as [-> ->]; [simpl; lia|done].
Defined.

(** ** The widget update *)

(** The widget update [_update_model_list] returns never has an empty list
    of options, and its value is the first option: the options are the file
    names of the cached records with a truthy ['repo_id'], in the order of
    the list, or the single placeholder "No models found" when there is no
    such record. *)
Theorem widget_options_never_empty (h : Heap) (cache models : list loc) :
  let '(h', cache', w) := _update_model_list h cache models in
  let resolved := filter (λ e, truthy (get_repo_id (h' e)) = true) cache' in
  widget_name w = "select_model"
  ∧ (∃ more, options w = value w :: more)
  ∧ (resolved = [] → options w = ["No models found"])
  ∧ (resolved ≠ [] → options w = (λ e, filename (h' e)) <$> resolved).
Proof.
  unfold _update_model_list.
  destruct (foldl merge_model (h, cache) models) as [h' cache'].
  unfold widget_update. simpl.
  destruct (filter (λ e, truthy (get_repo_id (h' e)) = true) cache')
    as [|e resolved]; simpl; split_and!; eauto; done.
Qed.

(** ** File names in the cached list *)

(** When no two cached records share a file name, none do after
    [_update_model_list]; the list has not shrunk and has grown by at most
    the number of incoming records. *)
Theorem update_model_list_keeps_filenames_unique (h : Heap)
    (cache models : list loc) :
  NoDup ((λ e, filename (h e)) <$> cache) →
  let '(h', cache', _) := _update_model_list h cache models in
  NoDup ((λ e, filename (h' e)) <$> cache')
  ∧ length cache ≤ length cache' ≤ length cache + length models.
Proof.
  intros Hnd. unfold _update_model_list.
  pose proof (merge_loop_post h cache models) as Hp.
  destruct (foldl merge_model (h, cache) models) as [h' cache']. simpl in Hp.
  destruct Hp as [Hid [more (-> & Hnew & Hndmore)] _ _ _].
  split.
  - erewrite list_fmap_ext;
      [|intros _ a _; exact (f_equal fst (Hid a))].
    rewrite fmap_app. apply NoDup_app. split_and!; [done| |done].
    intros name (e & -> & He)%list_elem_of_fmap
      (a & Ha & Hin)%list_elem_of_fmap.
    destruct (Hnew a Hin) as [_ Hnone].
    by destruct (proj1 (find_existing_None _ _ _) Hnone e He).
  - rewrite length_app. split; [lia|].
    assert (length more ≤ length models); [|lia].
    apply submseteq_length, NoDup_submseteq.
    + by apply NoDup_fmap_1 in Hndmore.
    + intros a Ha. by apply Hnew.
Qed.

Lemma update_model_list_keeps_filenames_unique_run :
  let '(h', cache', _) := _update_model_list Sample.heap [0] [2; 5; 1] in
  NoDup ((λ e, filename (h' e)) <$> cache')
  ∧ length [0] ≤ length cache' ≤ length [0] + length [2; 5; 1].
Proof.
  apply (update_model_list_keeps_filenames_unique Sample.heap [0] [2; 5; 1]).
  simpl. apply NoDup_singleton.
Defined.

(** ** Options and selection *)

(** When some cached record has a truthy ['repo_id'], every option of the
    widget is the file name of a cached record, so selecting it never fails
    with "Model not found"; when all cached records have one, selecting the
    option returns it with the repository and the path of the first record
    of that name. *)
Theorem offered_options_are_selectable (h : Heap) (cache : list loc)
    (name : string) :
  (∃ x, x ∈ cache ∧ truthy (get_repo_id (h x)) = true) →
  name ∈ options (widget_update h cache) →
  ∃ e, first_match h name cache e
       ∧ select h cache name ≠ inl (Exception "Model not found")
       ∧ (all_resolved h cache →
          select h cache name
          = inr (get_repo_id (h e), name, local_path (h e))).
Proof.
  intros (x & Hx & Htx) Hname. unfold widget_update in Hname. simpl in Hname.
  assert (Hin : x ∈ filter (λ e, truthy (get_repo_id (h e)) = true) cache)
    by (by apply list_elem_of_filter).
  destruct (filter (λ e, truthy (get_repo_id (h e)) = true) cache)
    as [|r resolved] eqn:Hres; [by apply elem_of_nil in Hin|].
  assert (Hname' : name ∈ (λ e, filename (h e)) <$> (r :: resolved))
    by exact Hname.
  rewrite <- Hres in Hname'.
  apply list_elem_of_fmap in Hname' as (y & -> & Hy).
  apply list_elem_of_filter in Hy as [_ Hy].
  destruct (find_existing h (filename (h y)) cache) as [e|] eqn:He.
  2:{ by destruct (proj1 (find_existing_None _ _ _) He y Hy). }
  exists e. split_and!; [by apply find_existing_Some| |].
  - unfold select. rewrite He.
    by destruct (truthy (get_repo_id_or_empty (h e))).
  - intros Hall. apply find_existing_elem in He as Hel. destruct Hel as [Hel Hfn].
    unfold select. rewrite He.
    destruct (truthy_get_repo_id_or_empty (h e)) as [Ht Hget].
    rewrite Ht, (Hall e Hel), Hget, Hfn; [done|]. by apply Hall.
Qed.

Lemma offered_options_are_selectable_run :
  ∃ e, first_match Sample.heap "model.safetensors" [1] e
       ∧ select Sample.heap [1] "model.safetensors"
         ≠ inl (Exception "Model not found")
       ∧ (all_resolved Sample.heap [1] →
          select Sample.heap [1] "model.safetensors"
          = inr (get_repo_id (Sample.heap e), "model.safetensors",
                 local_path (Sample.heap e))).
Proof.
  apply (offered_options_are_selectable Sample.heap [1] "model.safetensors").
  - exists 1. split; [by left|done].
  - vm_compute. by left.
Defined.

(** ** Dicts with missing keys *)

(** An instance restored from a dict without the ['last_workflow_hash']
    key holds no hash, so its next call runs the cycle whatever the
    selection and the cached list, and returns a triple. *)
Theorem restore_without_hash_rescans (L : Lib) (W : World) (h : Heap)
    (other : Self) (data : Blob) (select_model : option string)
    (prompt : Prompt) (node_id fp : string) :
  blob_last_workflow_hash data = None →
  _get_workflow_hash L prompt = inr fp →
  let self := deserialize other data in
  process L W h self select_model prompt node_id
  = scan_cycle W h self fp prompt node_id
  ∧ ∃ t, out_result (process L W h self select_model prompt node_id) = inr t.
Proof.
  intros Hkey Hfp. simpl.
  assert (Hre : process L W h (deserialize other data) select_model prompt
                  node_id
                = scan_cycle W h (deserialize other data) fp prompt node_id).
  { apply process_rescan; [done|]. unfold workflow_changed, deserialize.
    simpl. rewrite Hkey. apply orb_true_r. }
  split; [done|]. rewrite Hre. apply scan_cycle_post.
Qed.

Lemma restore_without_hash_rescans_run :
  ∃ t, out_result
         (process Sample.lib Sample.world Sample.heap
            (deserialize init Sample.old_blob) (Some "model.safetensors")
            (PromptDict Sample.graph) "9") = inr t.
Proof.
  apply (restore_without_hash_rescans Sample.lib Sample.world Sample.heap
           init Sample.old_blob (Some "model.safetensors")
           (PromptDict Sample.graph) "9" Sample.fingerprint); by vm_compute.
Defined.

(** A dict that has the three keys is the dict [serialize] writes after
    [deserialize] has read it. *)
Theorem serialize_deserialize (other : Self) (data : Blob) :
  is_Some (blob_missing_models data) →
  is_Some (blob_initialized data) →
  is_Some (blob_last_workflow_hash data) →
  serialize (deserialize other data) = data.
Proof.
  destruct data as [mm ini lh]. simpl.
  by intros [? ->] [? ->] [? ->].
Qed.

Lemma serialize_deserialize_run :
  serialize (deserialize init (serialize Sample.cached))
  = serialize Sample.cached.
Proof.
  apply (serialize_deserialize init (serialize Sample.cached)); by eexists.
Defined.

(** ** Repeated references *)

Lemma search_loop_same_service (W W' : World) (h : Heap)
    (models_list results : list loc) :
  search_for_model W' = search_for_model W →
  search_loop W' h models_list results = search_loop W h models_list results.
Proof.
  intros Hsame. revert h results.
  induction models_list as [|m rest IH]; intros h results; simpl; [done|].
  rewrite Hsame.
  destruct (search_for_model W (filename (h m))) as [result|e]; [|done].
  by destruct (found_repo result).
Qed.

Lemma resolve_all_same_service (W W' : World) (h : Heap)
    (models_list : list loc) :
  search_for_model W' = search_for_model W →
  lookups_before_timeout W' = lookups_before_timeout W →
  resolve_all W' h models_list = resolve_all W h models_list.
Proof.
  intros Hsame Htime.
  unfold resolve_all, search_coro, search_models_async.
  rewrite Htime.
  destruct (lookups_before_timeout W) as [k|];
    by rewrite (search_loop_same_service W W' _ _ _ Hsame).
Qed.

(** References that the scan returns more than once do not matter: with
    the same naming service and the same clock, a scan that returns a list
    and a scan that returns that list without its repeated
    (filename, local_path) pairs give the same outcome of [process]. *)
Theorem repeated_references_do_not_matter (L : Lib) (W W' : World) (h : Heap)
    (self : Self) (select_model : option string) (prompt : Prompt)
    (node_id : string) (found : list loc) :
  search_for_model W' = search_for_model W →
  lookups_before_timeout W' = lookups_before_timeout W →
  scan_workflow W prompt = Returns (Some found) →
  scan_workflow W' prompt = Returns (Some (dedupe h found)) →
  process L W' h self select_model prompt node_id
  = process L W h self select_model prompt node_id.
Proof.
  intros Hsame Htime Hscan Hscan'. unfold process.
  destruct (_get_workflow_hash L prompt) as [e|fp]; [done|].
  destruct (no_selection select_model || workflow_changed fp self); [|done].
  unfold scan_cycle. rewrite Hscan, Hscan'. simpl.
  assert (Hdd : dedupe h (dedupe h found) = dedupe h found).
  { apply dedupe_loop_fixed; [apply dedupe_loop_NoDup|].
    intros x _. apply not_elem_of_empty. }
  by rewrite Hdd, (resolve_all_same_service W W' _ _ Hsame Htime).
Qed.

Lemma repeated_references_do_not_matter_run :
  process Sample.lib Sample.world_unique Sample.heap init (Some "Scan First")
    (PromptDict Sample.graph) "9"
  = process Sample.lib Sample.world Sample.heap init (Some "Scan First")
      (PromptDict Sample.graph) "9".
Proof.
  apply (repeated_references_do_not_matter Sample.lib Sample.world
           Sample.world_unique Sample.heap init (Some "Scan First")
           (PromptDict Sample.graph) "9" [2; 3; 5; 4]); by vm_compute.
Defined.

(** ** Running the cycle again *)

Lemma dedupe_loop_ext (h h' : Heap) (seen : gset (string * string))
    (models : list loc) :
  (∀ l, identifier (h' l) = identifier (h l)) →
  dedupe_loop h' seen models = dedupe_loop h seen models.
Proof.
  intros Hid. revert seen.
  induction models as [|m rest IH]; intros seen; simpl; [done|].
  rewrite Hid. case_bool_decide; by rewrite IH.
Qed.

(** Two stores that agree on file names and paths go through the same
    lookups: the loop ends alike on both and writes the same repository to
    the same records. *)
Lemma search_loop_ext (W : World) (ha hb : Heap)
    (models_list results : list loc) :
  (∀ l, identifier (hb l) = identifier (ha l)) →
  (search_loop W hb models_list results).2
  = (search_loop W ha models_list results).2
  ∧ ∀ x, ((search_loop W ha models_list results).1 x = ha x
          ∧ (search_loop W hb models_list results).1 x = hb x)
         ∨ ∃ v, (search_loop W ha models_list results).1 x
                = set_repo_id v (ha x)
                ∧ (search_loop W hb models_list results).1 x
                  = set_repo_id v (hb x).
Proof.
  revert ha hb results.
  induction models_list as [|m rest IH]; intros ha hb results Hid; simpl.
  - split; [done|]. by left.
  - rewrite (f_equal fst (Hid m) : filename (hb m) = filename (ha m)).
    destruct (search_for_model W (filename (ha m))) as [result|e];
      [|split; [done|by left]].
    destruct (found_repo result) as [v0|]; [|by apply IH].
    destruct (IH (store ha m (set_repo_id v0 (ha m)))
                 (store hb m (set_repo_id v0 (hb m))) (results ++ [m]))
      as [Hres Hst].
    { intros l. by rewrite !store_repo_identifier. }
    split; [done|]. intros x.
    destruct (Hst x) as [[-> ->]|(v & -> & ->)].
    + destruct (decide (x = m)) as [->|Hne].
      * right. exists v0. by rewrite !store_eq.
      * left. by rewrite !store_ne.
    + right. exists v. by rewrite !set_repo_id_store.
Qed.

Lemma resolve_all_ext (W : World) (ha hb : Heap) (models_list : list loc) :
  (∀ l, identifier (hb l) = identifier (ha l)) →
  (resolve_all W hb models_list).1.2 = (resolve_all W ha models_list).1.2
  ∧ (resolve_all W hb models_list).2 = (resolve_all W ha models_list).2
  ∧ ∀ x, ((resolve_all W ha models_list).1.1 x = ha x
          ∧ (resolve_all W hb models_list).1.1 x = hb x)
         ∨ ∃ v, (resolve_all W ha models_list).1.1 x = set_repo_id v (ha x)
                ∧ (resolve_all W hb models_list).1.1 x = set_repo_id v (hb x).
Proof.
  intros Hid. unfold resolve_all, search_coro, search_models_async.
  destruct (lookups_before_timeout W) as [k|].
  - destruct (search_loop_ext W ha hb (take k models_list) [] Hid)
      as [Hres Hst].
    destruct (search_loop W ha (take k models_list) []) as [h'a ra].
    destruct (search_loop W hb (take k models_list) []) as [h'b rb].
    simpl in *. subst rb. by destruct ra.
  - destruct (search_loop_ext W ha hb models_list [] Hid) as [Hres Hst].
    destruct (search_loop W ha models_list []) as [h'a ra].
    destruct (search_loop W hb models_list []) as [h'b rb].
    simpl in *. subst rb. by destruct ra.
Qed.

Lemma first_triple_ext (ha hb : Heap) (valid : list loc) :
  (∀ l, hb l = ha l) → first_triple hb valid = first_triple ha valid.
Proof. intros Heq. destruct valid as [|m valid]; simpl; by rewrite ?Heq. Qed.

(** Running the cycle a second time, in the same world and on the same
    workflow, changes nothing: the second call returns what the first
    returned, sends what it sent, and leaves the store and the instance as
    the first call left them. *)
Theorem rescan_is_idempotent (L : Lib) (W : World) (h : Heap) (self : Self)
    (select_model select_model' : option string) (prompt : Prompt)
    (node_id fp : string) :
  _get_workflow_hash L prompt = inr fp →
  no_selection select_model || workflow_changed fp self = true →
  no_selection select_model' = true →
  let o1 := process L W h self select_model prompt node_id in
  let o2 := process L W (out_heap o1) (out_self o1) select_model' prompt
              node_id in
  out_result o2 = out_result o1
  ∧ (∀ l, out_heap o2 l = out_heap o1 l)
  ∧ out_self o2 = out_self o1
  ∧ out_events o2 = out_events o1.
Proof.
  intros Hfp Hcond Hsel'. simpl.
  rewrite (process_rescan _ _ _ _ _ _ _ _ Hfp Hcond).
  rewrite (process_rescan _ _ _ _ _ _ _ fp Hfp) by (by rewrite Hsel').
  set (o1 := scan_cycle W h self fp prompt node_id).
  destruct (scan_cycle_post W h self fp prompt node_id)
    as (_ & _ & Hid & _). fold o1 in Hid. simpl in Hid.
  pose proof (scan_cycle_heap W h self fp prompt node_id) as Hh1.
  fold o1 in Hh1.
  assert (Hdd : dedupe (out_heap o1) (scanned_models W prompt)
                = dedupe h (scanned_models W prompt))
    by (by apply dedupe_loop_ext).
  destruct (resolve_all_ext W h (out_heap o1)
              (dedupe h (scanned_models W prompt)) Hid)
    as (Hvalid & Hev & Hst).
  assert (Hvalid' : valid_models W (out_heap o1) prompt
                    = valid_models W h prompt)
    by (unfold valid_models; by rewrite Hdd).
  assert (Hheap : ∀ l,
    out_heap (scan_cycle W (out_heap o1) (out_self o1) fp prompt node_id) l
    = out_heap o1 l).
  { intros l. rewrite scan_cycle_heap, Hdd.
    destruct (Hst l) as [[_ ?]|(v & Ha & ->)]; [done|].
    by rewrite Hh1, Ha. }
  split_and!; [| done | |].
  - destruct (decide (valid_models W h prompt = [])) as [Hempty|Hsome].
    + rewrite (scan_cycle_empty _ _ _ _ _ _
                 (eq_trans Hvalid' Hempty)).
      unfold o1. by rewrite (scan_cycle_empty _ _ _ _ _ _ Hempty).
    + pose proof Hheap as Hheap2. revert Hheap2.
      rewrite (scan_cycle_nonempty W (out_heap o1)) by (by rewrite Hvalid').
      simpl. rewrite Hvalid'. intros Hheap2.
      rewrite (first_triple_ext (out_heap o1)) by done.
      unfold o1. by rewrite (scan_cycle_nonempty _ _ _ _ _ _ Hsome).
  - destruct (decide (valid_models W h prompt = [])) as [Hempty|Hsome].
    + rewrite (scan_cycle_empty _ _ _ _ _ _
                 (eq_trans Hvalid' Hempty)).
      unfold o1. by rewrite (scan_cycle_empty _ _ _ _ _ _ Hempty).
    + rewrite (scan_cycle_nonempty W (out_heap o1)) by (by rewrite Hvalid').
      simpl. rewrite Hvalid'.
      unfold o1. by rewrite (scan_cycle_nonempty _ _ _ _ _ _ Hsome).
  - destruct (decide (valid_models W h prompt = [])) as [Hempty|Hsome].
    + rewrite (scan_cycle_empty _ _ _ _ _ _
                 (eq_trans Hvalid' Hempty)). simpl. rewrite Hdd, Hev.
      unfold o1. by rewrite (scan_cycle_empty _ _ _ _ _ _ Hempty).
    + pose proof Hheap as Hheap2. revert Hheap2.
      rewrite (scan_cycle_nonempty W (out_heap o1)) by (by rewrite Hvalid').
      simpl. rewrite Hvalid', Hdd, Hev. intros Hheap2.
      rewrite (list_fmap_ext _ (out_heap o1) (valid_models W h prompt))
        by (intros _ l _; apply Hheap2).
      unfold o1. by rewrite (scan_cycle_nonempty _ _ _ _ _ _ Hsome).
Qed.

Lemma rescan_is_idempotent_run :
  let o1 := process Sample.lib Sample.world Sample.heap init
              (Some "Scan First") (PromptDict Sample.graph) "9" in
  let o2 := process Sample.lib Sample.world (out_heap o1) (out_self o1)
              (Some "Scan First") (PromptDict Sample.graph) "9" in
  out_result o2 = out_result o1 ∧ out_self o2 = out_self o1.
Proof.
  destruct (rescan_is_idempotent Sample.lib Sample.world Sample.heap init
              (Some "Scan First") (Some "Scan First")
              (PromptDict Sample.graph) "9" Sample.fingerprint)
    as (Hres & _ & Hself & _); [by vm_compute..|].
  by split.
Defined.
